(** * cram: functional tests for command line applications

    A shallow embedding of [cram.py] and the properties of its matcher,
    differ, transcript reconstruction, discovery and runner.

    Python [str] values are [string]s, lists are [list]s, the [after]
    dictionary is a [gmap], the [seen] set a [gset].  Functions keep the
    names they have in [cram.py]; every definition cites the source lines
    it follows.  Code that raises returns [option] ([None] is the raised
    exception). *)

From Stdlib Require Import ZArith Ascii String Bool Lia.
From stdpp Require Import gmap strings list pretty sorting.

#[local] Set Warnings "-clear-no-such-hyp".

Local Open Scope string_scope.
Local Open Scope list_scope.
Local Open Scope stdpp_scope.

(** ** Python string primitives *)

Module Py.

(** The characters of a string, and back. *)
Definition chars (s : string) : list ascii := list_ascii_of_string s.
Definition str (l : list ascii) : string := string_of_list_ascii l.

(** [s.startswith(p)] *)
Definition startswith (s p : string) : bool :=
  bool_decide (chars p `prefix_of` chars s).

(** [s.endswith(p)] *)
Definition endswith (s p : string) : bool :=
  bool_decide (chars p `suffix_of` chars s).

(** [s[k:]] for a literal [k >= 0] *)
Definition drop (k : nat) (s : string) : string := str (drop k (chars s)).

(** [s[:-k]] for a literal [k > 0]: all but the last [k] characters,
    the empty string when [s] is shorter than [k]. *)
Definition drop_last (k : nat) (s : string) : string :=
  str (take (length (chars s) - k) (chars s)).

(** [s.split()]: the maximal runs of non-whitespace characters. *)
Definition split (s : string) : list string := String.words s.

(** [int(s)] on an optional sign followed by decimal digits, which is what
    a shell prints for [$?] and what [cram] prints for a line index.
    [None] is [ValueError]. *)
Fixpoint digits (acc : Z) (s : string) : option Z :=
  match s with
  | "" => Some acc
  | String c s' =>
      match Ascii.is_nat c with
      | Some d => digits (10 * acc + Z.of_nat d)%Z s'
      | None => None
      end
  end.

Definition int (s : string) : option Z :=
  match s with
  | "" => None
  | String "-" ((String _ _) as s') => Z.opp <$> digits 0 s'
  | String "+" ((String _ _) as s') => digits 0 s'
  | _ => digits 0 s
  end.

(** ['%s' % n] and ['%d' % n] for an integer [n] *)
Definition str_of_int (n : Z) : string := pretty n.

(** The one-character strings of a line feed and of a double quote. *)
Definition nl : string := String "010"%char "".
Definition dq : string := String "034"%char "".

End Py.

(** ** The fragment of Python's [re] syntax that is modelled

    [re] is a library, not part of [cram.py].  The model fixes its behaviour
    on the patterns built from ordinary characters, [.], a backslash before
    a character that is neither a letter nor a digit, and a postfix [*]:
    these are the patterns [_glob] produces, and they include the doctest
    patterns of [_match].  A pattern using another metacharacter is
    [Beyond] the model. *)

Module Re.

Inductive atom : Type :=
| Lit (c : ascii)     (* a character standing for itself *)
| AnyChar.            (* [.]: any character except a newline *)

Inductive item : Type :=
| Once (a : atom)     (* [a]  *)
| Many (a : atom).    (* [a*] *)

Inductive parsed : Type :=
| Ok (items : list item)
| Bad                 (* [re.error] *)
| Beyond.             (* outside the modelled syntax *)

Definition newline : ascii := "010"%char.

Definition is_alnum (c : ascii) : bool :=
  let n := nat_of_ascii c in
  (((48 <=? n) && (n <=? 57)) || ((65 <=? n) && (n <=? 90))
   || ((97 <=? n) && (n <=? 122)))%nat.

(** Metacharacters other than [.], [\] and [*]. *)
Definition is_other_special (c : ascii) : bool :=
  match c with
  | "+" | "?" | "{" | "(" | ")" | "[" | "|" | "^" | "$" => true
  | _ => false
  end%char.

(** Left-to-right parse; [acc] holds the items read so far, last first.
    A [*] needs an atom before it ("nothing to repeat") that is not
    starred already ("multiple repeat"); a backslash needs a character
    after it ("bad escape (end of pattern)"). *)
Fixpoint parse_go (acc : list item) (s : list ascii) : parsed :=
  match s with
  | [] => Ok (rev acc)
  | c :: s' =>
      if Ascii.eqb c "\" then
        match s' with
        | [] => Bad
        | d :: s'' =>
            if is_alnum d then Beyond else parse_go (Once (Lit d) :: acc) s''
        end
      else if Ascii.eqb c "*" then
        match acc with
        | Once a :: acc' => parse_go (Many a :: acc') s'
        | _ => Bad
        end
      else if Ascii.eqb c "." then parse_go (Once AnyChar :: acc) s'
      else if is_other_special c then Beyond
      else parse_go (Once (Lit c) :: acc) s'
  end.

Definition parse (p : string) : parsed :=
  parse_go [] (list_ascii_of_string p).

Definition atom_ok (a : atom) (c : ascii) : bool :=
  match a with
  | Lit d => Ascii.eqb d c
  | AnyChar => negb (Ascii.eqb c newline)
  end.

(** [a*] followed by the continuation [k]. *)
Fixpoint match_star (a : atom) (k : list ascii -> bool) (s : list ascii)
  : bool :=
  k s || match s with
         | c :: s' => atom_ok a c && match_star a k s'
         | [] => false
         end.

(** Does some prefix of [s] match [items]?  This is [re.match]: anchored
    at the start of the string, free at its end. *)
Fixpoint match_here (items : list item) (s : list ascii) : bool :=
  match items with
  | [] => true
  | Once a :: rest =>
      match s with
      | c :: s' => atom_ok a c && match_here rest s'
      | [] => false
      end
  | Many a :: rest => match_star a (match_here rest) s
  end.

(** The words of a pattern, as a relation. *)
Inductive star (a : atom) : list ascii -> Prop :=
| star_nil : star a []
| star_cons c w : atom_ok a c = true -> star a w -> star a (c :: w).

Inductive lang : list item -> list ascii -> Prop :=
| lang_nil : lang [] []
| lang_once a rest c w :
    atom_ok a c = true -> lang rest w -> lang (Once a :: rest) (c :: w)
| lang_many a rest w1 w2 :
    star a w1 -> lang rest w2 -> lang (Many a :: rest) (w1 ++ w2).

(** [re.escape(c)] for a single character (Python 3.7 and later: a
    backslash before each of [()[]{}?*+-|^$\.&~#], space, tab, newline,
    carriage return, vertical tab and form feed). *)
Definition is_escaped (c : ascii) : bool :=
  match c with
  | "(" | ")" | "[" | "]" | "{" | "}" | "?" | "*" | "+" | "-" | "|" | "^"
  | "$" | "\" | "." | "&" | "~" | "#" | " "
  | "009" | "010" | "013" | "011" | "012" => true
  | _ => false
  end%char.

Definition escape (c : ascii) : string :=
  if is_escaped c then String "\" (String c "") else String c "".

End Re.

(** ** [re.match] as [cram.py] sees it *)

Inductive re_result : Type :=
| ReError       (* raises [re.error] *)
| ReNone        (* returns [None] *)
| ReFound.      (* returns a match object *)

(** Any implementation of [re.match] that agrees with the model on the
    modelled syntax. *)
Class ReEngine : Type := {
  re_match : string -> string -> re_result;
  re_match_ok : forall p items s,
    Re.parse p = Re.Ok items ->
    re_match p s =
      if Re.match_here items (list_ascii_of_string s) then ReFound else ReNone;
  re_match_bad : forall p s, Re.parse p = Re.Bad -> re_match p s = ReError
}.

(** The reference engine: the model itself; it rejects what it does not
    model. *)
Definition reference_match (p s : string) : re_result :=
  match Re.parse p with
  | Re.Ok items =>
      if Re.match_here items (list_ascii_of_string s) then ReFound else ReNone
  | Re.Bad => ReError
  | Re.Beyond => ReError
  end.

#[export] Program Instance reference_engine : ReEngine :=
  {| re_match := reference_match |}.
Next Obligation. intros p items s H. unfold reference_match. now rewrite H. Qed.
Next Obligation. intros p s H. unfold reference_match. now rewrite H. Qed.

(** ** [_match] and [_glob] (cram.py, lines 35-69) *)

Section Matching.
Context `{ReEngine}.

(** [_match(pattern, s)]: the truth value of the result; [re.error] is
    caught and gives [False]. *)
Definition _match (pattern s : string) : bool :=
  match re_match pattern s with
  | ReFound => true
  | ReNone => false
  | ReError => false
  end.

(** The regular expression [res] that the loop of [_glob] builds from
    [el]; [None] is the [IndexError] of [el[i]] when [el] ends in a
    backslash. *)
Fixpoint glob_res (el : string) : option string :=
  match el with
  | "" => Some ""
  | String c rest =>
      if Ascii.eqb c "\" then
        match rest with
        | "" => None
        | String d rest' =>
            if Ascii.eqb d "*" || Ascii.eqb d "?" || Ascii.eqb d "\" then
              String.app (String c (String d "")) <$> glob_res rest'
            else String.app (Re.escape c) <$> glob_res rest
        end
      else if Ascii.eqb c "*" then String.app ".*" <$> glob_res rest
      else if Ascii.eqb c "?" then String.app "." <$> glob_res rest
      else String.app (Re.escape c) <$> glob_res rest
  end.

Definition _glob (el l : string) : option bool :=
  res ← glob_res el; Some (_match res l).

(** The test of [find_longest_match] (lines 81-82) on one pair of an
    expected line [el] and an actual line [line]. *)
Definition tagged_match (el line : string) : option bool :=
  if Py.endswith el (" (re)" +:+ Py.nl)
     && _match (Py.drop_last 6 el +:+ Py.nl) line
  then Some true
  else if Py.endswith el (" (glob)" +:+ Py.nl)
       then _glob (Py.drop_last 8 el +:+ Py.nl) line
       else Some false.

End Matching.

(** ** [difflib.SequenceMatcher], the base class

    Also a library: the model follows CPython 3's [difflib] for
    [isjunk=None] and [autojunk=True], which is how [unified_diff] builds
    the matcher.  Indices are [nat]; [l !! i] is [l[i]] and [None] its
    [IndexError]. *)

Module Difflib.

Definition block : Type := nat * nat * nat.          (* (i, j, size) *)
Definition window : Type := nat * nat * nat * nat.   (* (alo, ahi, blo, bhi) *)

Inductive tag : Type := Replace | Delete | Insert | Equal.

Definition opcode : Type := tag * nat * nat * nat * nat.

Definition is_equal (t : tag) : bool :=
  match t with Equal => true | _ => false end.

(** [l[lo:hi]] for [0 <= lo], [0 <= hi] *)
Definition slice {A} (l : list A) (lo hi : nat) : list A :=
  take (hi - lo) (drop lo l).

Fixpoint indices_from (i : nat) (x : string) (b : list string) : list nat :=
  match b with
  | [] => []
  | y :: b' =>
      if String.eqb x y then i :: indices_from (S i) x b'
      else indices_from (S i) x b'
  end.

(** [b2j.get(x, [])] after [__chain_b]: the indices of [x] in [b], in
    increasing order; none when [b] has 200 elements or more and [x]
    occurs more than [len(b) // 100 + 1] times ("popular"). *)
Definition b2j_get (b : list string) (x : string) : list nat :=
  let n := length b in
  let idxs := indices_from 0 x b in
  if (200 <=? n)%nat && (n / 100 + 1 <? length idxs)%nat then [] else idxs.

(** [j2len.get(j-1, 0)] *)
Definition j2len_get (j2len : gmap nat nat) (j : nat) : nat :=
  match j with
  | O => 0
  | S j' => default 0 (j2len !! j')
  end.

(** The inner loop of [find_longest_match], over the indices [js] of
    [a[i]] in [b]. *)
Fixpoint row (j2len : gmap nat nat) (i blo bhi : nat) (js : list nat)
    (newj2len : gmap nat nat) (best : block) : gmap nat nat * block :=
  match js with
  | [] => (newj2len, best)
  | j :: js' =>
      if (j <? blo)%nat then row j2len i blo bhi js' newj2len best
      else if (bhi <=? j)%nat then (newj2len, best)
      else
        let k := j2len_get j2len j + 1 in
        let best' :=
          if (best.2 <? k)%nat then (i + 1 - k, j + 1 - k, k) else best in
        row j2len i blo bhi js' (<[j:=k]> newj2len) best'
  end.

(** The outer loop, over [range(alo, ahi)]. *)
Fixpoint rows (a b : list string) (blo bhi : nat) (rng : list nat)
    (j2len : gmap nat nat) (best : block) : option block :=
  match rng with
  | [] => Some best
  | i :: rng' =>
      x ← a !! i;
      let '(newj2len, best') := row j2len i blo bhi (b2j_get b x) ∅ best in
      rows a b blo bhi rng' newj2len best'
  end.

(** [while besti > alo and bestj > blo and a[besti-1] == b[bestj-1]]:
    grow the block to the left. *)
Fixpoint extend_left (a b : list string) (alo blo : nat)
    (besti bestj bestsize : nat) : option block :=
  match besti with
  | O => Some (besti, bestj, bestsize)
  | S i' =>
      if (alo <? besti)%nat && (blo <? bestj)%nat then
        y ← b !! (bestj - 1);
        x ← a !! i';
        if String.eqb x y
        then extend_left a b alo blo i' (bestj - 1) (bestsize + 1)
        else Some (besti, bestj, bestsize)
      else Some (besti, bestj, bestsize)
  end.

(** [while besti+bestsize < ahi and bestj+bestsize < bhi and
    a[besti+bestsize] == b[bestj+bestsize]]: grow it to the right; [d] is
    [ahi - (besti + bestsize)], which each round decreases by one. *)
Fixpoint extend_right (a b : list string) (ahi bhi : nat)
    (besti bestj : nat) (d : nat) (bestsize : nat) : option nat :=
  match d with
  | O => Some bestsize
  | S d' =>
      if (besti + bestsize <? ahi)%nat && (bestj + bestsize <? bhi)%nat then
        y ← b !! (bestj + bestsize);
        x ← a !! (besti + bestsize);
        if String.eqb x y
        then extend_right a b ahi bhi besti bestj d' (bestsize + 1)
        else Some bestsize
      else Some bestsize
  end.

(** [difflib.SequenceMatcher.find_longest_match(alo, ahi, blo, bhi)].
    With [isjunk=None] no element is junk, so the two loops that extend
    the block over junk elements do nothing and are left out. *)
Definition find_longest_match (a b : list string) (alo ahi blo bhi : nat)
  : option block :=
  '(besti, bestj, bestsize) ← rows a b blo bhi (seq alo (ahi - alo)) ∅
                                 (alo, blo, 0);
  '(besti, bestj, bestsize) ← extend_left a b alo blo besti bestj bestsize;
  bestsize ← extend_right a b ahi bhi besti bestj
               (ahi - (besti + bestsize)) bestsize;
  Some (besti, bestj, bestsize).

(** Order of tuples, for [matching_blocks.sort()]. *)
Definition block_leb (x y : block) : bool :=
  let '(i1, j1, k1) := x in
  let '(i2, j2, k2) := y in
  (i1 <? i2)%nat
  || ((i1 =? i2)%nat
      && ((j1 <? j2)%nat || ((j1 =? j2)%nat && (k1 <=? k2)%nat))).

Definition block_le (x y : block) : Prop := block_leb x y = true.

#[global] Instance block_le_dec : RelDecision block_le.
Proof. intros x y. unfold block_le. apply _. Defined.

(** The second loop of [get_matching_blocks]: adjacent blocks are merged. *)
Fixpoint collapse (cur : block) (bs : list block) : list block :=
  let '(i1, j1, k1) := cur in
  match bs with
  | [] => if (0 <? k1)%nat then [cur] else []
  | (i2, j2, k2) :: bs' =>
      if (i1 + k1 =? i2)%nat && (j1 + k1 =? j2)%nat
      then collapse (i1, j1, k1 + k2) bs'
      else (if (0 <? k1)%nat then [cur] else []) ++ collapse (i2, j2, k2) bs'
  end.

(** [get_opcodes], from the matching blocks. *)
Fixpoint opcodes_from (i j : nat) (bs : list block) : list opcode :=
  match bs with
  | [] => []
  | (ai, bj, size) :: bs' =>
      (if (i <? ai)%nat && (j <? bj)%nat then [(Replace, i, ai, j, bj)]
       else if (i <? ai)%nat then [(Delete, i, ai, j, bj)]
       else if (j <? bj)%nat then [(Insert, i, ai, j, bj)]
       else [])
      ++ (if (0 <? size)%nat
          then [(Equal, ai, ai + size, bj, bj + size)] else [])
      ++ opcodes_from (ai + size) (bj + size) bs'
  end.

(** The two fix-ups of [get_grouped_opcodes]: a leading and a trailing
    [equal] run keep [n] lines of context. *)
Definition trim_first (n : nat) (codes : list opcode) : list opcode :=
  match codes with
  | (Equal, i1, i2, j1, j2) :: rest =>
      (Equal, Nat.max i1 (i2 - n), i2, Nat.max j1 (j2 - n), j2) :: rest
  | _ => codes
  end.

Fixpoint trim_last (n : nat) (codes : list opcode) : list opcode :=
  match codes with
  | [] => []
  | [(Equal, i1, i2, j1, j2)] =>
      [(Equal, i1, Nat.min i2 (i1 + n), j1, Nat.min j2 (j1 + n))]
  | c :: rest => c :: trim_last n rest
  end.

(** The grouping loop; [group] is the group being filled. *)
Fixpoint group_codes (n : nat) (codes : list opcode) (group : list opcode)
  : list (list opcode) :=
  match codes with
  | [] =>
      match group with
      | [] => []
      | [(Equal, _, _, _, _)] => []
      | _ => [group]
      end
  | (t, i1, i2, j1, j2) :: rest =>
      if is_equal t && (n + n <? i2 - i1)%nat then
        (group ++ [(t, i1, Nat.min i2 (i1 + n), j1, Nat.min j2 (j1 + n))])
        :: group_codes n rest
             [(t, Nat.max i1 (i2 - n), i2, Nat.max j1 (j2 - n), j2)]
      else group_codes n rest (group ++ [(t, i1, i2, j1, j2)])
  end.

Definition grouped (n : nat) (codes : list opcode) : list (list opcode) :=
  let codes := match codes with [] => [(Equal, 0, 1, 0, 1)] | _ => codes end in
  group_codes n (trim_last n (trim_first n codes)) [].

(** A [find_longest_match] method: it gets [self.a], [self.b] and the
    window, and returns [self.a] as it leaves it, with the block. *)
Definition method : Type :=
  list string -> list string -> nat -> nat -> nat -> nat ->
  option (list string * block).

(** The first loop of [get_matching_blocks].  The Python list [queue] is
    used as a stack: its last element is the head here.  Every round
    takes one window off the stack; [fuel] bounds the number of rounds
    ([None] when it runs out, see [matching_loop_fuel] below). *)
Fixpoint matching_loop (flm : method) (fuel : nat) (a b : list string)
    (queue : list window) (blocks : list block)
  : option (list string * list block) :=
  match queue with
  | [] => Some (a, blocks)
  | (alo, ahi, blo, bhi) :: queue' =>
      match fuel with
      | O => None
      | S fuel' =>
          '(a', (i, j, k)) ← flm a b alo ahi blo bhi;
          if (0 <? k)%nat then
            let left :=
              if (alo <? i)%nat && (blo <? j)%nat
              then [(alo, i, blo, j)] else [] in
            let right :=
              if (i + k <? ahi)%nat && (j + k <? bhi)%nat
              then [(i + k, ahi, j + k, bhi)] else [] in
            matching_loop flm fuel' a' b (right ++ left ++ queue')
                          (blocks ++ [(i, j, k)])
          else matching_loop flm fuel' a' b queue' blocks
      end
  end.

(** [get_matching_blocks()], calling the method [flm] of the instance. *)
Definition get_matching_blocks (flm : method) (a b : list string)
  : option (list string * list block) :=
  let la := length a in
  let lb := length b in
  '(a', blocks) ← matching_loop flm (S (la + lb)) a b [(0, la, 0, lb)] [];
  Some (a', collapse (0, 0, 0) (merge_sort block_le blocks) ++ [(la, lb, 0)]).

(** [get_opcodes()] *)
Definition get_opcodes (flm : method) (a b : list string)
  : option (list string * list opcode) :=
  '(a', blocks) ← get_matching_blocks flm a b;
  Some (a', opcodes_from 0 0 blocks).

(** [get_grouped_opcodes(n)], all groups at once. *)
Definition get_grouped_opcodes (flm : method) (a b : list string) (n : nat)
  : option (list string * list (list opcode)) :=
  '(a', codes) ← get_opcodes flm a b;
  Some (a', grouped n codes).

End Difflib.

(** ** [SequenceMatcher] and [unified_diff] (cram.py, lines 71-123) *)

Section Differ.
Context `{ReEngine}.

(** The first loop of [find_longest_match] (lines 80-87), over
    [enumerate(zip(self.a[alo:ahi], self.b[blo:bhi]))] from position [n]
    on: a tagged line that matches its counterpart is overwritten with
    it, and remembered in [matches]. *)
Fixpoint substitute (alo n : nat) (els lines : list string)
    (a : list string) (matches : list (nat * string))
  : option (list string * list (nat * string)) :=
  match els, lines with
  | el :: els', line :: lines' =>
      m ← tagged_match el line;
      if m : bool
      then substitute alo (S n) els' lines' (<[alo + n := line]> a)
                      (matches ++ [(n, el)])
      else substitute alo (S n) els' lines' a matches
  | _, _ => Some (a, matches)
  end.

(** The second loop (lines 92-93). *)
Fixpoint restore (alo : nat) (matches : list (nat * string))
    (a : list string) : list string :=
  match matches with
  | [] => a
  | (n, el) :: matches' => restore alo matches' (<[alo + n := el]> a)
  end.

(** [SequenceMatcher.find_longest_match] *)
Definition find_longest_match : Difflib.method :=
  fun a b alo ahi blo bhi =>
    '(a1, matches) ← substitute alo 0 (Difflib.slice a alo ahi)
                      (Difflib.slice b blo bhi) a [];
    ret ← Difflib.find_longest_match a1 b alo ahi blo bhi;
    Some (restore alo matches a1, ret).

(** The lines of one opcode (lines 113-123). *)
Definition render_opcode (a b : list string) (c : Difflib.opcode)
  : list string :=
  let '(t, i1, i2, j1, j2) := c in
  match t with
  | Difflib.Equal => (String.app " ") <$> Difflib.slice a i1 i2
  | Difflib.Replace =>
      ((String.app "-") <$> Difflib.slice a i1 i2)
      ++ ((String.app "+") <$> Difflib.slice b j1 j2)
  | Difflib.Delete => (String.app "-") <$> Difflib.slice a i1 i2
  | Difflib.Insert => (String.app "+") <$> Difflib.slice b j1 j2
  end.

(** The hunk header and lines of one group (lines 110-123);
    [group[0]] and [group[-1]] exist, groups are never empty. *)
Definition render_group (a b : list string) (lineterm : string)
    (group : list Difflib.opcode) : list string :=
  match group, last group with
  | (_, i1, _, j1, _) :: _, Some (_, _, i2, _, j2) =>
      ("@@ -" +:+ pretty (i1 + 1) +:+ "," +:+ pretty (i2 - i1)
       +:+ " +" +:+ pretty (j1 + 1) +:+ "," +:+ pretty (j2 - j1)
       +:+ " @@" +:+ lineterm)
      :: concat (render_opcode a b <$> group)
  | _, _ => []
  end.

(** The body of the generator for the groups it is given: the two header
    lines before the first group (lines 104-109), then every group. *)
Definition render_diff (a b : list string)
    (fromfile tofile fromfiledate tofiledate lineterm : string)
    (groups : list (list Difflib.opcode)) : list string :=
  match groups with
  | [] => []
  | _ :: _ =>
      let fromdate := String "009"%char fromfiledate in
      let todate := String "009"%char tofiledate in
      ("--- " +:+ fromfile +:+ fromdate +:+ lineterm)
      :: ("+++ " +:+ tofile +:+ todate +:+ lineterm)
      :: concat (render_group a b lineterm <$> groups)
  end.

(** [unified_diff(a, b, fromfile, tofile)] with the defaults [n=3],
    [lineterm='\n'], [matcher=SequenceMatcher]: the list [a] as the run
    of the matcher leaves it, and all the lines the generator yields. *)
Definition unified_diff (a b : list string) (fromfile tofile : string)
  : option (list string * list string) :=
  '(a', groups) ← Difflib.get_grouped_opcodes find_longest_match a b 3;
  Some (a', render_diff a' b fromfile tofile "" "" Py.nl groups).

End Differ.

(** ** [test] (cram.py, lines 125-182) *)

Section Test.
Context `{ReEngine}.

(** What [/bin/sh -] prints (standard output and standard error
    together) when it is fed the text written to its standard input, as
    the list [p.communicate()[0].splitlines(True)]. *)
Variable sh : string -> list string.

(** [echo], a double quote, a line feed, the salt, the index and [$?],
    a double quote, a line feed (lines 154 and 161). *)
Definition sentinel (salt : string) (i : Z) : string :=
  "echo " +:+ Py.dq +:+ Py.nl +:+ salt +:+ " " +:+ Py.str_of_int i +:+ " $?"
  +:+ Py.dq +:+ Py.nl.

(** The variables of the first loop (lines 144-160): [after], [pos],
    [prepos], and the text written to [p.stdin] so far. *)
Record reader : Type := Reader {
  r_after : gmap Z (list string);
  r_pos : Z;
  r_prepos : Z;
  r_stdin : string
}.

(** [after.setdefault(k, []).append(line)] *)
Definition after_append (k : Z) (line : string)
    (after : gmap Z (list string)) : gmap Z (list string) :=
  <[k := default [] (after !! k) ++ [line]]> after.

(** One round of the first loop, on line [i] of the file. *)
Definition read_line (salt : string) (i : Z) (line : string) (r : reader)
  : reader :=
  if Py.startswith line "  $ " then
    Reader (after_append (r_pos r) line (r_after r)) i (r_pos r)
           (r_stdin r +:+ sentinel salt i +:+ Py.drop 4 line)
  else if Py.startswith line "  > " then
    Reader (after_append (r_prepos r) line (r_after r)) (r_pos r)
           (r_prepos r) (r_stdin r +:+ Py.drop 4 line)
  else if negb (Py.startswith line "  ") then
    Reader (after_append (r_pos r) line (r_after r)) (r_pos r)
           (r_prepos r) (r_stdin r)
  else r.

Fixpoint read_lines (salt : string) (i : Z) (f : list string) (r : reader)
  : reader :=
  match f with
  | [] => r
  | line :: f' => read_lines salt (i + 1)%Z f' (read_line salt i line r)
  end.

(** Lines 144-161: the whole file, then the closing sentinel, whose
    index is the number of lines. *)
Definition read_file (salt : string) (f : list string) : reader :=
  let r := read_lines salt 0 f (Reader ∅ (-1) (-1) "") in
  Reader (r_after r) (r_pos r) (r_prepos r)
         (r_stdin r +:+ sentinel salt (Z.of_nat (length f))).

(** The variables of the second loop (lines 163-177). *)
Record writer : Type := Writer {
  w_postout : list string;
  w_after : gmap Z (list string);
  w_pos : Z
}.

(** [after.pop(pos, [])] *)
Definition after_pop (pos : Z) (after : gmap Z (list string))
  : list string * gmap Z (list string) :=
  (default [] (after !! pos), delete pos after).

(** Lines 167-169: the line before the sentinel is taken off [postout];
    unless it is ["  \n"], it is put back with its last character
    replaced by ["%\n"].  [None] is the [IndexError] of [pop] on an empty
    list. *)
Definition pop_presalt (postout : list string) : option (list string) :=
  match last postout with
  | None => None
  | Some presalt =>
      let rest := removelast postout in
      if String.eqb presalt ("  " +:+ Py.nl) then Some rest
      else Some (rest ++ [Py.drop_last 1 presalt +:+ "%" +:+ Py.nl])
  end.

(** Lines 167-174, a line that starts with the salt. *)
Definition on_sentinel (line : string) (w : writer) : option writer :=
  postout ← pop_presalt (w_postout w);
  ret ← Py.split line !! 2 ≫= Py.int;
  let postout :=
    if bool_decide (ret ≠ 0%Z)
    then postout ++ ["  [" +:+ Py.str_of_int ret +:+ "]" +:+ Py.nl]
    else postout in
  let '(lines, after) := after_pop (w_pos w) (w_after w) in
  pos ← Py.split line !! 1 ≫= Py.int;
  Some (Writer (postout ++ lines) after pos).

(** One round of the second loop. *)
Definition write_line (salt line : string) (w : writer) : option writer :=
  if Py.startswith line salt then on_sentinel line w
  else Some (Writer (w_postout w ++ ["  " +:+ line]) (w_after w) (w_pos w)).

Fixpoint write_lines (salt : string) (out : list string) (w : writer)
  : option writer :=
  match out with
  | [] => Some w
  | line :: out' => w' ← write_line salt line w; write_lines salt out' w'
  end.

(** Lines 163-177: [postout] from the output of the shell. *)
Definition reconstruct (salt : string) (after : gmap Z (list string))
    (out : list string) : option (list string) :=
  w ← write_lines salt out (Writer [] after (-1));
  Some (w_postout w ++ (after_pop (w_pos w) (w_after w)).1).

(** [test(path)] for the file with lines [f] at [abspath], with the salt
    of this run: [(refout, postout, diff)]; [diff] is the list of the
    lines of the diff, empty (false) when there are none. *)
Definition test (salt abspath : string) (f : list string)
  : option (list string * list string * list string) :=
  let r := read_file salt f in
  postout ← reconstruct salt (r_after r) (sh (r_stdin r));
  '(refout, diff) ← unified_diff f postout abspath (abspath +:+ ".err");
  Some (refout, postout, diff).

End Test.

(** ** [posixpath] *)

Module Path.

Definition sep : ascii := "/"%char.

(** [s.split('/')] *)
Fixpoint split_go (cur : list ascii) (l : list ascii) : list string :=
  match l with
  | [] => [Py.str (rev cur)]
  | c :: l' =>
      if Ascii.eqb c sep then Py.str (rev cur) :: split_go [] l'
      else split_go (c :: cur) l'
  end.

Definition split (s : string) : list string := split_go [] (Py.chars s).

(** ['/'.join(comps)] *)
Fixpoint join_sep (comps : list string) : string :=
  match comps with
  | [] => ""
  | [c] => c
  | c :: rest => c +:+ "/" +:+ join_sep rest
  end.

(** [os.path.basename(p)]: what follows the last slash. *)
Definition basename (p : string) : string := default "" (last (split p)).

(** [os.path.join(a, b)] *)
Definition join (a b : string) : string :=
  if Py.startswith b "/" then b
  else if String.eqb a "" || Py.endswith a "/" then a +:+ b
  else a +:+ "/" +:+ b.

(** The loop of [normpath] over the components. *)
Fixpoint norm_comps (initial_slashes : nat) (comps new_comps : list string)
  : list string :=
  match comps with
  | [] => new_comps
  | comp :: comps' =>
      if String.eqb comp "" || String.eqb comp "." then
        norm_comps initial_slashes comps' new_comps
      else if negb (String.eqb comp "..")
              || ((initial_slashes =? 0)%nat
                  && bool_decide (new_comps = []))
              || bool_decide (last new_comps = Some "..")
      then norm_comps initial_slashes comps' (new_comps ++ [comp])
      else norm_comps initial_slashes comps' (removelast new_comps)
  end.

(** [os.path.normpath(path)] *)
Definition normpath (path : string) : string :=
  if String.eqb path "" then "." else
  let initial_slashes :=
    if Py.startswith path "/" then
      if Py.startswith path "//" && negb (Py.startswith path "///")
      then 2 else 1
    else 0 in
  let comps := norm_comps initial_slashes (split path) [] in
  let path' := Py.str (replicate initial_slashes sep) +:+ join_sep comps in
  if String.eqb path' "" then "." else path'.

End Path.

(** ** The operating system, as [cram.py] uses it *)

Record os : Type := OS {
  (** [os.getcwd()] *)
  getcwd : string;
  (** [os.path.isdir(p)] *)
  isdir : string -> bool;
  (** [list(os.walk(p))]: the triples [(root, dirs, files)] *)
  walk : string -> list (string * list string * list string);
  (** [os.stat(p).st_size]; [None] is [OSError] *)
  st_size : string -> option N;
  (** [list(open(p))]; [None] is [IOError] *)
  readlines : string -> option (list string);
  (** [time.time()], in text, when [test(p)] runs *)
  clock : string -> string;
  (** the output of the shell that [test(p)] starts, on the script it is fed *)
  shell : string -> string -> list string;
  (** what [_prompt] returns when it reads the answer from [sys.stdin] *)
  stdin_answer : string
}.

(** ** [istest] and [findtests] (cram.py, lines 14-33) *)

Definition istest (path : string) : bool :=
  negb (Py.startswith path ".") && Py.endswith path ".t".

(** The body of the loop over [os.walk(p)] for one triple (lines 27-31). *)
Definition walk_tests (item : string * list string * list string)
  : list string :=
  let '(root, dirs, files) := item in
  if Py.startswith (Path.basename root) "." then []
  else (fun f => Path.normpath (Path.join root f))
         <$> filter (fun f => istest f = true) (merge_sort String.le files).

(** [list(findtests(paths))], on the file tree as it is when the run
    starts. *)
Definition findtests (w : os) (paths : list string) : list string :=
  p ← paths;
  if isdir w p then item ← walk w p; walk_tests item
  else if istest (Path.basename p) then [Path.normpath p]
  else [].

(** ** [run] (cram.py, lines 184-290) *)

(** What [run] does besides yielding text. *)
Inductive event : Type :=
| Mkdir (d : string)
| Chdir (d : string)
| Rmtree (d : string)
| Exec (path abspath : string)       (* the [/bin/sh] of [test(abspath)] *)
| WriteErr (errpath : string) (lines : list string)
| Prompt (question : string)
| Copy (src dst : string)
| Remove (p : string).

(** The arguments of [run] after [paths].  [basetmp] is the empty string
    when it is not set ([None] and [''] are both false). *)
Record options : Type := Options {
  quiet : bool;
  verbose : bool;
  interactive : bool;
  basetmp : string;
  keeptmp : bool;
  answer : option string
}.

(** The variables of [run], the strings yielded so far, and the events so
    far. *)
Record run_state : Type := RunState {
  seen : gset string;
  skipped : nat;
  failed : nat;
  out : list string;
  events : list event
}.

Definition yield (ss : list string) (st : run_state) : run_state :=
  RunState (seen st) (skipped st) (failed st) (out st ++ ss) (events st).

Definition emit (es : list event) (st : run_state) : run_state :=
  RunState (seen st) (skipped st) (failed st) (out st) (events st ++ es).

Section Run.
Context `{ReEngine}.
Variable w : os.
Variable o : options.

(** [_prompt(question, answers, auto)] (lines 184-208): [auto] when it is
    set, else the answer read from [sys.stdin]. *)
Definition _prompt (auto : option string) : string :=
  match auto with
  | Some a => a
  | None => stdin_answer w
  end.

(** [test(abspath)] in the world [w]. *)
Definition test_at (abspath : string)
  : option (list string * list string * list string) :=
  f ← readlines w abspath;
  test (shell w abspath) ("CRAM" +:+ clock w abspath) abspath f.

Definition has_basetmp : bool := negb (String.eqb (basetmp o) "").

(** Lines 259-286: after [test] has returned. *)
Definition report (path abspath : string)
    (postout diff : list string) (st : run_state) : run_state :=
  match diff with
  | _ :: _ =>
      let st := RunState (seen st) (skipped st) (S (failed st)) (out st)
                         (events st) in
      let st :=
        if verbose o then yield ["failed" +:+ Py.nl] st
        else yield ("!" :: if quiet o then [] else [Py.nl]) st in
      let errpath := abspath +:+ ".err" in
      let st := emit [WriteErr errpath postout] st in
      if quiet o then st else
      let st := yield diff st in
      if interactive o then
        let st := emit [Prompt "Accept this change?"] st in
        if String.eqb (_prompt (answer o)) "y" then
          let st := emit [Copy errpath abspath; Remove errpath] st in
          if verbose o then yield [path +:+ ": merged output" +:+ Py.nl] st
          else st
        else st
      else st
  | [] =>
      if verbose o then yield ["passed" +:+ Py.nl] st else yield ["."] st
  end.

(** The events around [test(abspath)] (lines 247-258): the temporary
    directory is made and entered before, left and removed after, when
    [basetmp] is set. *)
Definition before_test (path : string) : list event :=
  let tmpdir := Path.join (basetmp o) (Path.basename path) in
  if has_basetmp then [Mkdir tmpdir; Chdir tmpdir] else [].

Definition after_test (path : string) : list event :=
  let tmpdir := Path.join (basetmp o) (Path.basename path) in
  if has_basetmp
  then Chdir (getcwd w) :: if keeptmp o then [] else [Rmtree tmpdir]
  else [].

(** One round of the loop of [run] (lines 233-286), with the state it
    leaves; the flag is [false] when the round ends in an exception. *)
Definition run_path (path : string) (st : run_state) : run_state * bool :=
  if bool_decide (path ∈ seen st) then (st, true) else
  let st := RunState ({[path]} ∪ seen st) (skipped st) (failed st) (out st)
                     (events st) in
  let abspath := Path.join (getcwd w) path in
  let st := if verbose o then yield [path +:+ ": "] st else st in
  match st_size w abspath with
  | None => (st, false)
  | Some 0%N =>
      let st := RunState (seen st) (S (skipped st)) (failed st) (out st)
                         (events st) in
      (if verbose o then yield ["empty" +:+ Py.nl] st else yield ["s"] st,
       true)
  | Some _ =>
      let st :=
        emit (before_test path ++ [Exec path abspath] ++ after_test path) st in
      match test_at abspath with
      | None => (st, false)
      | Some (refout, postout, diff) =>
          (report path abspath postout diff st, true)
      end
  end.

(** The loop of [run] over the tests found. *)
Fixpoint run_paths (tests : list string) (st : run_state)
  : run_state * bool :=
  match tests with
  | [] => (st, true)
  | path :: tests' =>
      let '(st', ok) := run_path path st in
      if ok then run_paths tests' st' else (st', false)
  end.

(** Lines 287-290. *)
Definition summary (st : run_state) : string :=
  "# Ran " +:+ pretty (size (seen st)) +:+ " tests, "
  +:+ pretty (skipped st) +:+ " skipped, "
  +:+ pretty (failed st) +:+ " failed." +:+ Py.nl.

(** [run(paths, quiet, verbose, interactive, basetmp, keeptmp, answer)]:
    the final state, and whether the generator ran to its end. *)
Definition run (paths : list string) : run_state * bool :=
  let '(st, ok) :=
    run_paths (findtests w paths) (RunState ∅ 0 0 [] []) in
  if ok
  then (yield ((if verbose o then [] else [Py.nl]) ++ [summary st]) st, true)
  else (st, false).

End Run.

(** ** A file tree, to run the definitions on *)

Module Tree.

Local Set Warnings "-register-all".

Inductive node : Type :=
| File (name : string) (lines : list string)
| Dir (name : string) (entries : list node).

Definition name_of (n : node) : string :=
  match n with File name _ => name | Dir name _ => name end.

Definition is_dir (n : node) : bool :=
  match n with Dir _ _ => true | File _ _ => false end.

Fixpoint find (name : string) (entries : list node) : option node :=
  match entries with
  | [] => None
  | n :: rest => if String.eqb (name_of n) name then Some n else find name rest
  end.

(** The node at the end of the components [comps], from a directory with
    the entries [entries]; empty components and [.] stay in place. *)
Fixpoint resolve (comps : list string) (here : node) : option node :=
  match comps with
  | [] => Some here
  | comp :: comps' =>
      if String.eqb comp "" || String.eqb comp "." then resolve comps' here
      else match here with
           | Dir _ entries => find comp entries ≫= resolve comps'
           | File _ _ => None
           end
  end.

(** [os.walk(top)] on the directory [n], top-down, in the order of the
    entries. *)
Fixpoint walk_node (top : string) (n : node)
  : list (string * list string * list string) :=
  match n with
  | File _ _ => []
  | Dir _ entries =>
      (top, name_of <$> filter (fun e => is_dir e = true) entries,
            name_of <$> filter (fun e => is_dir e = false) entries)
      :: (fix below (es : list node) :=
            match es with
            | [] => []
            | e :: es' =>
                walk_node (Path.join top (name_of e)) e ++ below es'
            end) entries
  end.

Definition bytes (lines : list string) : N :=
  N.of_nat (sum_list (String.length <$> lines)).

(** The world in which the current directory [cwd] holds [entries]; paths
    are looked up from [cwd], with or without [cwd] in front. *)
Definition lookup (cwd : string) (entries : list node) (p : string)
  : option node :=
  let rel := if Py.startswith p (cwd +:+ "/")
             then Py.drop (S (String.length cwd)) p else p in
  resolve (Path.split rel) (Dir "." entries).

Definition world (cwd : string) (entries : list node)
    (sh : string -> string -> list string) : os :=
  {| getcwd := cwd;
     isdir p := match lookup cwd entries p with
                | Some n => is_dir n | None => false end;
     walk p := match lookup cwd entries p with
               | Some n => walk_node p n | None => [] end;
     st_size p := match lookup cwd entries p with
                  | Some (File _ lines) => Some (bytes lines)
                  | Some (Dir _ _) => Some 4096%N
                  | None => None end;
     readlines p := match lookup cwd entries p with
                    | Some (File _ lines) => Some lines
                    | _ => None end;
     clock _ := "0.0";
     shell := sh;
     stdin_answer := "N" |}.

End Tree.

(** ** Notions used to state the properties *)

(** The characters a glob pattern treats specially. *)
Definition glob_special (c : ascii) : bool :=
  Ascii.eqb c "*" || Ascii.eqb c "?" || Ascii.eqb c "\".

(** Patterns in which [_glob] finds nothing to translate: no [*], no [?],
    and no backslash before [*], [?] or a backslash, or at the end. *)
Fixpoint plain (el : string) : bool :=
  match el with
  | "" => true
  | String c rest =>
      if Ascii.eqb c "\" then
        match rest with
        | "" => false
        | String d _ => negb (glob_special d) && plain rest
        end
      else negb (Ascii.eqb c "*") && negb (Ascii.eqb c "?") && plain rest
  end.

(** [re.escape(s)], character by character. *)
Fixpoint escape_all (s : string) : string :=
  match s with
  | "" => ""
  | String c rest => Re.escape c +:+ escape_all rest
  end.

Definition lits (l : list ascii) : list Re.item :=
  (fun c => Re.Once (Re.Lit c)) <$> l.

(** A window inside lists of lengths [la] and [lb], and a block inside a
    window. *)
Definition valid (la lb : nat) (w : Difflib.window) : Prop :=
  let '(alo, ahi, blo, bhi) := w in
  alo <= ahi /\ ahi <= la /\ blo <= bhi /\ bhi <= lb.

Definition within (w : Difflib.window) (x : Difflib.block) : Prop :=
  let '(alo, ahi, blo, bhi) := w in
  let '(i, j, k) := x in
  alo <= i /\ i + k <= ahi /\ blo <= j /\ j + k <= bhi.

(** The lengths that [j2len] holds when row [i] of [find_longest_match]
    starts, on a window that starts at [alo] and [blo]. *)
Definition j2len_ok (alo blo i : nat) (j2len : gmap nat nat) : Prop :=
  forall j k, j2len !! j = Some k ->
    k <= i - alo /\ k <= j + 1 - blo /\ blo <= j.

(** What one window costs the loop of [get_matching_blocks] at most: the
    rounds it takes to split it down to nothing. *)
Definition weight (w : Difflib.window) : nat :=
  let '(alo, ahi, blo, bhi) := w in
  2 * Nat.min (ahi - alo) (bhi - blo) + 1.

(** A line: its text and a line feed. *)
Definition ln (s : string) : string := s +:+ Py.nl.

(** The tests that were executed, in order: the path found and the file. *)
Definition execs (es : list event) : list (string * string) :=
  omap (fun e => match e with
                 | Exec path abspath => Some (path, abspath)
                 | _ => None
                 end) es.

(** The test file at [path] has no bytes. *)
Definition zero_size (w : os) (path : string) : Prop :=
  st_size w (Path.join (getcwd w) path) = Some 0%N.

(** The test at [path] runs and gives a diff. *)
Definition fails `{ReEngine} (w : os) (path : string) : Prop :=
  match st_size w (Path.join (getcwd w) path) with
  | None | Some 0%N => False
  | Some _ =>
      match test_at w (Path.join (getcwd w) path) with
      | Some (_, _, _ :: _) => True
      | _ => False
      end
  end.

#[global] Instance zero_size_dec w path : Decision (zero_size w path).
Proof. unfold zero_size. apply _. Defined.

#[global] Instance fails_dec `{ReEngine} w path : Decision (fails w path).
Proof.
  unfold fails. destruct (st_size w _) as [[|?]|]; try apply _.
  destruct (test_at w _) as [[[? ?] [|? ?]]|]; apply _.
Defined.

(** What holds of the variables of [run] between two rounds: the counters
    count the empty and the failing tests among the paths met, and the
    tests executed are paths met, not empty, each executed once. *)
Definition run_inv `{ReEngine} (w : os) (st : run_state) : Prop :=
  skipped st = size (filter (zero_size w) (seen st))
  /\ failed st = size (filter (fails w) (seen st))
  /\ NoDup (execs (events st)).*1
  /\ (forall p ap, (p, ap) ∈ execs (events st) ->
        p ∈ seen st /\ ap = Path.join (getcwd w) p /\ ~ zero_size w p).

(** A tree of test files to evaluate on: [t] holds [b.t], the empty
    [a.t], and the hidden directory [.hid] with [h.t] and [sub/x.t]. *)
Definition ex_tree : list Tree.node :=
  [Tree.Dir "t"
     [Tree.File "b.t" [ln "  $ true"];
      Tree.File "a.t" [];
      Tree.Dir ".hid"
        [Tree.File "h.t" []; Tree.Dir "sub" [Tree.File "x.t" []]]]].

(** A shell in which every command prints nothing and exits with 0, for
    files with one command on their first line. *)
Definition ex_shell (abspath script : string) : list string :=
  [ln ""; ln "CRAM0.0 0 0"; ln ""; ln "CRAM0.0 1 0"].

Definition ex_world : os := Tree.world "/w" ex_tree ex_shell.

Definition ex_options : options := Options false false false "" false None.

(** Lines 167-169 on the line [presalt] before the sentinel: nothing for
    the empty line that the sentinel itself prints, else the line with a
    percent sign in place of the line feed it did not have. *)
Definition mark (presalt : string) : list string :=
  if String.eqb presalt ("  " +:+ Py.nl) then []
  else [Py.drop_last 1 presalt +:+ "%" +:+ Py.nl].

(** Line 172: the line for the exit status [ret]. *)
Definition status_line (ret : Z) : string :=
  "  [" +:+ Py.str_of_int ret +:+ "]" +:+ Py.nl.



(** Scenario D: the command prints [err] and exits with 1, the file
    declares [[1]]. *)
Definition scenario_d : list string :=
  [ln "  $ sh -c 'echo err; exit 1'"; ln "  err"; ln "  [1]"].

Definition shell_d (script : string) : list string :=
  [ln ""; ln "CRAM0.0 0 0"; ln "err"; ln ""; ln "CRAM0.0 3 1"].

(** The command prints [out] and exits with 7, the file declares no exit
    status. *)
Definition scenario_7 : list string :=
  [ln "  $ sh -c 'echo out; exit 7'"; ln "  out"].

Definition shell_7 (script : string) : list string :=
  [ln ""; ln "CRAM0.0 0 0"; ln "out"; ln ""; ln "CRAM0.0 2 7"].

(** The test of [__chain_b] for the elements it drops from [b2j]. *)
Definition popular (b : list string) (x : string) : bool :=
  (200 <=? length b)%nat
  && (length b / 100 + 1 <? length (Difflib.indices_from 0 x b))%nat.

(** The length of the run of lines of [b] that are not popular and end
    just before index [i]. *)
Fixpoint run_before (b : list string) (i : nat) : nat :=
  match i with
  | O => 0
  | S i' =>
      match b !! i' with
      | Some x => if popular b x then 0 else S (run_before b i')
      | None => 0
      end
  end.

(** [j2len] when row [i] starts, for a sequence compared with itself: the
    lengths on the diagonal are the runs, the others are no longer. *)
Definition prev_ok (b : list string) (i : nat) (j2len : gmap nat nat) : Prop :=
  (forall j, j < i -> Difflib.j2len_get j2len j <= run_before b j)
  /\ (forall j, i < j -> Difflib.j2len_get j2len j <= run_before b i)
  /\ Difflib.j2len_get j2len i = run_before b i.

(** The best block when row [i] starts, for a sequence compared with
    itself: it lies on the diagonal and is as long as every run so far. *)
Definition best_ok (b : list string) (i : nat) (best : Difflib.block) : Prop :=
  best.1.1 = best.1.2 /\ best.1.1 + best.2 <= i
  /\ (forall j, j <= i -> run_before b j <= best.2).

(** The expected line [el] counts as the actual line [line]: they are the
    same text, or [el] is a tagged line that matches [line]. *)
Definition agree `{ReEngine} (el line : string) : Prop :=
  el = line \/ tagged_match el line = Some true.


(** ** Notions used for the further properties *)

(** The items that a glob pattern stands for: [*] is any run of characters
    other than a line feed, [?] one such character, a backslash before [*],
    [?] or a backslash makes it literal, every other character (a backslash
    before anything else included) is literal. *)
Fixpoint glob_items (el : string) : list Re.item :=
  match el with
  | "" => []
  | String c rest =>
      if Ascii.eqb c "\" then
        match rest with
        | "" => [Re.Once (Re.Lit c)]
        | String d rest' =>
            if glob_special d then Re.Once (Re.Lit d) :: glob_items rest'
            else Re.Once (Re.Lit c) :: glob_items rest
        end
      else if Ascii.eqb c "*" then Re.Many Re.AnyChar :: glob_items rest
      else if Ascii.eqb c "?" then Re.Once Re.AnyChar :: glob_items rest
      else Re.Once (Re.Lit c) :: glob_items rest
  end.


(** The expected line [el] carries the [(re)] or the [(glob)] tag. *)
Definition tagged (el : string) : bool :=
  Py.endswith el (" (re)" +:+ Py.nl) || Py.endswith el (" (glob)" +:+ Py.nl).

(** A tree with a test directly in the current directory. *)
Definition ex_tree_top : list Tree.node :=
  Tree.File "top.t" [] :: Tree.File "t2.t" [] :: Tree.File "t10.t" []
  :: ex_tree.

Definition ex_world_top : os := Tree.world "/w" ex_tree_top ex_shell.

(** The events of [report]: the [.err] file is written for every diff; the
    prompt and the merge need [interactive] without [quiet]. *)
Definition report_events (w : os) (o : options) (abspath : string)
    (postout diff : list string) : list event :=
  match diff with
  | [] => []
  | _ :: _ =>
      WriteErr (abspath +:+ ".err") postout
      :: (if quiet o then []
          else if interactive o then
            Prompt "Accept this change?"
            :: (if String.eqb (_prompt w (answer o)) "y"
                then [Copy (abspath +:+ ".err") abspath;
                      Remove (abspath +:+ ".err")]
                else [])
          else [])
  end.

(** The events of the round of [run] for a path not met before. *)
Definition round_events `{ReEngine} (w : os) (o : options) (path : string)
  : list event :=
  let abspath := Path.join (getcwd w) path in
  match st_size w abspath with
  | None | Some 0%N => []
  | Some _ =>
      before_test o path ++ [Exec path abspath] ++ after_test w o path
      ++ match test_at w abspath with
         | None => []
         | Some (_, postout, diff) => report_events w o abspath postout diff
         end
  end.

(** The strings that the round yields when it does not raise. *)
Definition round_output `{ReEngine} (w : os) (o : options) (path : string)
  : list string :=
  let abspath := Path.join (getcwd w) path in
  (if verbose o then [path +:+ ": "] else [])
  ++ match st_size w abspath with
     | None => []
     | Some 0%N => if verbose o then ["empty" +:+ Py.nl] else ["s"]
     | Some _ =>
         match test_at w abspath with
         | None => []
         | Some (_, _, []) => if verbose o then ["passed" +:+ Py.nl] else ["."]
         | Some (_, _, diff) =>
             (if verbose o then ["failed" +:+ Py.nl]
              else "!" :: if quiet o then [] else [Py.nl])
             ++ (if quiet o then []
                 else diff
                      ++ if interactive o
                            && String.eqb (_prompt w (answer o)) "y"
                            && verbose o
                         then [path +:+ ": merged output" +:+ Py.nl] else [])
         end
     end.

(** The directories made, removed and entered, in order. *)
Definition mkdirs (es : list event) : list string :=
  omap (fun e => match e with Mkdir d => Some d | _ => None end) es.

Definition rmtrees (es : list event) : list string :=
  omap (fun e => match e with Rmtree d => Some d | _ => None end) es.

Definition chdirs (es : list event) : list string :=
  omap (fun e => match e with Chdir d => Some d | _ => None end) es.

(** The event changes a test file: it copies over it or removes one. *)
Definition is_merge (e : event) : bool :=
  match e with Copy _ _ | Remove _ => true | _ => false end.

(** The paths of [tests] that [run] has not met, each at its first
    occurrence, from the set [met]. *)
Fixpoint distinct (tests : list string) (met : gset string) : list string :=
  match tests with
  | [] => []
  | path :: tests' =>
      if bool_decide (path ∈ met) then distinct tests' met
      else path :: distinct tests' ({[path]} ∪ met)
  end.

(** The test at [path] runs and gives a diff, with [postout] as its
    actual output. *)
Definition fails_with `{ReEngine} (w : os) (path : string)
    (postout : list string) : Prop :=
  match st_size w (Path.join (getcwd w) path) with
  | None | Some 0%N => False
  | Some _ =>
      exists refout diff,
        test_at w (Path.join (getcwd w) path) = Some (refout, postout, diff)
        /\ diff <> []
  end.

(** The status of a test in one character. *)
Definition mark_of `{ReEngine} (w : os) (path : string) : string :=
  if decide (zero_size w path) then "s"
  else if decide (fails w path) then "!" else ".".

(** The temporary directories that exist after the events [es], from the
    set [live]; [None] when a directory is made while it exists, or removed
    while it does not. *)
Fixpoint tmpdirs (es : list event) (live : gset string)
  : option (gset string) :=
  match es with
  | [] => Some live
  | Mkdir d :: es' =>
      if bool_decide (d ∈ live) then None else tmpdirs es' ({[d]} ∪ live)
  | Rmtree d :: es' =>
      if bool_decide (d ∈ live) then tmpdirs es' (live ∖ {[d]}) else None
  | _ :: es' => tmpdirs es' live
  end.

(** The working directory after the events [es]. *)
Definition cwd_after (w : os) (es : list event) : string :=
  default (getcwd w) (last (chdirs es)).

(** A tree with a test that fails: [f.t] expects [bye] where the command
    prints [hi]; [p.t] passes and [e.t] is empty. *)
Definition ex_tree_fail : list Tree.node :=
  [Tree.Dir "t"
     [Tree.File "f.t" [ln "  $ echo hi"; ln "  bye"];
      Tree.File "p.t" [ln "  $ true"];
      Tree.File "e.t" []]].

Definition ex_shell_fail (abspath script : string) : list string :=
  if Py.endswith abspath "f.t"
  then [ln ""; ln "CRAM0.0 0 0"; ln "hi"; ln ""; ln "CRAM0.0 2 0"]
  else ex_shell abspath script.

Definition ex_world_fail : os := Tree.world "/w" ex_tree_fail ex_shell_fail.

(** The round of [path] ends without an exception: the size of the file
    can be asked for, and when it is not zero the test returns. *)
Definition completes `{ReEngine} (w : os) (path : string) : Prop :=
  match st_size w (Path.join (getcwd w) path) with
  | None => False
  | Some 0%N => True
  | Some _ => is_Some (test_at w (Path.join (getcwd w) path))
  end.

(** ** [main] (cram.py, lines 292-365), after [p.parse_args(args)] *)

(** The values of the options, as [optparse] hands them over: a flag that
    is not given is false; [sterilize] is false when [-E] is given. *)
Module Opts.

Record t : Type := Make {
  quiet : bool;
  verbose : bool;
  interactive : bool;
  yes : bool;
  no : bool;
  keep_tmpdir : bool;
  sterilize : bool
}.

End Opts.

(** What [main] asks of its surroundings besides what [run] asks. *)
Record host : Type := Host {
  (** the world of [run] *)
  host_os : os;
  (** [os.path.exists(p)] *)
  path_exists : string -> bool;
  (** the directory that [tempfile.mkdtemp('', 'cramtests-')] makes *)
  mkdtemp : string;
  (** [p.get_usage()] *)
  get_usage : string
}.

(** How [main] ends: it returns a value ([None] at the end of its body),
    or an exception of [run] leaves it. *)
Inductive outcome : Type :=
| Returns (value : option Z)
| Raises.

(** What [main] has done when it ends: the strings it wrote itself to
    [sys.stdout] and [sys.stderr], the assignments to [os.environ], and
    the events, those of [run] among them. *)
Record main_result : Type := MainResult {
  ending : outcome;
  stdout : list string;
  stderr : list string;
  environ : list (string * string);
  effects : list event
}.

(** Lines 317-324: the first pair of options that exclude each other. *)
Fixpoint first_conflict (conflicts : list (string * bool * string * bool))
  : option (string * string) :=
  match conflicts with
  | [] => None
  | (s1, o1, s2, o2) :: rest =>
      if o1 && o2 then Some (s1, s2) else first_conflict rest
  end.

Definition conflicts (opts : Opts.t)
  : list (string * bool * string * bool) :=
  [("-y", Opts.yes opts, "-n", Opts.no opts);
   ("-q", Opts.quiet opts, "-v", Opts.verbose opts);
   ("-q", Opts.quiet opts, "-i", Opts.interactive opts)].

(** Lines 335-347: the assignments to [os.environ], in order. *)
Definition main_environ (opts : Opts.t) (basetmp proctmp : string)
  : list (string * string) :=
  [("CRAMTMP", basetmp)]
  ++ ((fun s => (s, proctmp)) <$> ["TMPDIR"; "TEMP"; "TMP"])
  ++ (if Opts.sterilize opts
      then ((fun s => (s, "C")) <$> ["LANG"; "LC_ALL"; "LANGUAGE"])
           ++ [("TZ", "GMT"); ("CDPATH", ""); ("COLUMNS", "80");
               ("GREP_OPTIONS", "")]
      else []).

(** Lines 349-354. *)
Definition main_answer (opts : Opts.t) : option string :=
  if Opts.yes opts then Some "y"
  else if Opts.no opts then Some "n"
  else None.

Definition main `{ReEngine} (h : host) (opts : Opts.t) (paths : list string)
  : main_result :=
  match first_conflict (conflicts opts) with
  | Some (s1, s2) =>
      MainResult (Returns (Some 2%Z)) []
        ["options " +:+ s1 +:+ " and " +:+ s2 +:+ " are mutually exclusive"
         +:+ Py.nl] [] []
  | None =>
  match paths with
  | [] => MainResult (Returns (Some 2%Z)) [get_usage h] [] [] []
  | _ :: _ =>
  match filter (fun p => path_exists h p = false) paths with
  | bad :: _ =>
      MainResult (Returns (Some 2%Z)) []
        ["no such file: " +:+ bad +:+ Py.nl] [] []
  | [] =>
      let basetmp := mkdtemp h in
      let proctmp := Path.join basetmp "tmp" in
      let '(st, ok) :=
        run (host_os h)
          (Options (Opts.quiet opts) (Opts.verbose opts)
             (Opts.interactive opts) basetmp (Opts.keep_tmpdir opts)
             (main_answer opts))
          paths in
      MainResult
        (if ok then Returns None else Raises)
        (out st ++ if ok && negb (Opts.verbose opts) then [Py.nl] else [])
        []
        (main_environ opts basetmp proctmp)
        ([Mkdir basetmp; Mkdir proctmp] ++ events st
         ++ if Opts.keep_tmpdir opts then [] else [Rmtree basetmp])
  end end end.

(** [main] turns its arguments down: two options exclude each other, no
    path is given, or a path does not exist. *)
Definition rejected (h : host) (opts : Opts.t) (paths : list string) : bool :=
  Opts.yes opts && Opts.no opts
  || Opts.quiet opts && Opts.verbose opts
  || Opts.quiet opts && Opts.interactive opts
  || bool_decide (paths = [])
  || negb (forallb (path_exists h) paths).

(** The options that [main] passes to [run]. *)
Definition main_options (h : host) (opts : Opts.t) : options :=
  Options (Opts.quiet opts) (Opts.verbose opts) (Opts.interactive opts)
    (mkdtemp h) (Opts.keep_tmpdir opts) (main_answer opts).

Definition ex_host : host :=
  Host ex_world_fail
    (fun p => bool_decide (is_Some (Tree.lookup "/w" ex_tree_fail p)))
    "/tmp/cramtests-0" ("Usage: cram [OPTIONS] TESTS..." +:+ Py.nl).

(** ** Notions used for the properties of [test] *)

(** A word: not empty, and without white space. *)
Definition is_word (s : string) : bool :=
  negb (String.eqb s "") && forallb (fun c => negb (Ascii.is_space c)) (Py.chars s).

(** The second line that the sentinel written for the index [i] prints,
    when [$?] is [ret]; the first is empty. *)
Definition sentinel_line (salt : string) (i ret : nat) : string :=
  salt +:+ " " +:+ Py.str_of_int (Z.of_nat i) +:+ " "
  +:+ Py.str_of_int (Z.of_nat ret) +:+ Py.nl.

(** A test file in the order that [test] keeps: lines that are not
    indented, then the steps; a step is a command, its continuation lines,
    its expected output, and lines that are not indented. *)
Record step : Type := Step {
  s_cmd : string;
  s_conts : list string;
  s_expected : list string;
  s_notes : list string
}.

Definition step_lines (s : step) : list string :=
  s_cmd s :: s_conts s ++ s_expected s ++ s_notes s.

Definition file_of (header : list string) (steps : list step) : list string :=
  header ++ (steps ≫= step_lines).

(** The kinds of lines that the first loop of [test] tells apart. *)
Definition is_command (line : string) : bool := Py.startswith line "  $ ".

Definition is_continuation (line : string) : bool :=
  Py.startswith line "  > ".

Definition is_output (line : string) : bool :=
  Py.startswith line "  " && negb (Py.startswith line "  $ ")
  && negb (Py.startswith line "  > ").

Definition is_note (line : string) : bool := negb (Py.startswith line "  ").

Definition is_step (s : step) : bool :=
  is_command (s_cmd s) && forallb is_continuation (s_conts s)
  && forallb is_output (s_expected s) && forallb is_note (s_notes s).

(** What the shell did with the command of a step: the complete lines it
    printed, what it printed after the last line feed, and its exit
    status. *)
Record ran : Type := Ran {
  printed : list string;
  unfinished : string;
  exit_code : nat
}.

(** Nothing that the command printed looks like a sentinel. *)
Definition clean (salt : string) (r : ran) : bool :=
  forallb (fun l => negb (Py.startswith l salt)) (printed r)
  && negb (Py.startswith (unfinished r +:+ Py.nl) salt).

(** The output of a shell that runs the steps: before each command, and at
    the end, the sentinel prints a line feed, which ends the line that the
    command before it left unfinished, and then the line with the index [i]
    and the status [ret] of the command before it. *)
Fixpoint transcript (salt : string) (i ret : nat) (tail : string)
    (steps : list (step * ran)) : list string :=
  (tail +:+ Py.nl) :: sentinel_line salt i ret
  :: match steps with
     | [] => []
     | (s, r) :: rest =>
         printed r
         ++ transcript salt (i + length (step_lines s)) (exit_code r)
              (unfinished r) rest
     end.

(** The lines that stand for an unfinished line and for an exit status. *)
Definition percent (tail : string) : list string :=
  if String.eqb tail "" then [] else ["  " +:+ tail +:+ "%" +:+ Py.nl].

Definition status (code : nat) : list string :=
  match code with
  | O => []
  | S _ => [status_line (Z.of_nat code)]
  end.

(** A step with what its command did in the place of the expected
    output. *)
Definition actual_lines (sr : step * ran) : list string :=
  let '(s, r) := sr in
  s_cmd s :: s_conts s ++ (String.app "  " <$> printed r)
  ++ percent (unfinished r) ++ status (exit_code r) ++ s_notes s.

Definition postout_of (header : list string) (steps : list (step * ran))
  : list string :=
  header ++ (steps ≫= actual_lines).

(** [after.get(k, [])] *)
Definition after_get (after : gmap Z (list string)) (k : Z) : list string :=
  default [] (after !! k).

(** The lines that stand for what the command of a step did. *)
Definition output_lines (r : ran) : list string :=
  (String.app "  " <$> printed r) ++ percent (unfinished r)
  ++ status (exit_code r).

(** A file with two steps, to evaluate on: the first command prints a
    line and leaves one unfinished, the second fails with status 3. *)
Definition ex_steps : list (step * ran) :=
  [(Step (ln "  $ printf 'a\nb'") [] [ln "  a"; ln "  b%"] [ln "then"],
    Ran [ln "a"] "b" 0);
   (Step (ln "  $ (exit 3) \") [ln "  > || exit 3"] [ln "  [3]"] [],
    Ran [] "" 3)].

(** * Properties *)

(** ** Strings *)

Lemma chars_app (a b : string) : Py.chars (a +:+ b) = Py.chars a ++ Py.chars b.
Proof.
  unfold Py.chars. induction a as [|c a IH]; simpl; [reflexivity|].
  now rewrite <- IH.
Qed.

Lemma str_chars (s : string) : Py.str (Py.chars s) = s.
Proof. apply string_of_list_ascii_of_string. Qed.

Lemma chars_str (l : list ascii) : Py.chars (Py.str l) = l.
Proof. apply list_ascii_of_string_of_list_ascii. Qed.

Lemma chars_inj (s t : string) : Py.chars s = Py.chars t -> s = t.
Proof. intros E. rewrite <- (str_chars s), <- (str_chars t). now rewrite E. Qed.

Lemma chars_length (s : string) : length (Py.chars s) = String.length s.
Proof. unfold Py.chars. induction s; simpl; congruence. Qed.

Lemma startswith_spec (s p : string) :
  Py.startswith s p = true <-> exists r, s = p +:+ r.
Proof.
  unfold Py.startswith. rewrite bool_decide_eq_true. split.
  - intros [k Hk]. exists (Py.str k). apply chars_inj.
    now rewrite chars_app, chars_str.
  - intros [r ->]. exists (Py.chars r). apply chars_app.
Qed.

Lemma endswith_spec (s p : string) :
  Py.endswith s p = true <-> exists r, s = r +:+ p.
Proof.
  unfold Py.endswith. rewrite bool_decide_eq_true. split.
  - intros [k Hk]. exists (Py.str k). apply chars_inj.
    now rewrite chars_app, chars_str.
  - intros [r ->]. exists (Py.chars r). apply chars_app.
Qed.

Lemma endswith_app (r p : string) : Py.endswith (r +:+ p) p = true.
Proof. apply endswith_spec. now exists r. Qed.

Lemma drop_last_app (r p : string) :
  Py.drop_last (String.length p) (r +:+ p) = r.
Proof.
  unfold Py.drop_last. rewrite chars_app, length_app, <- chars_length.
  replace (length (Py.chars r) + length (Py.chars p) - length (Py.chars p))
    with (length (Py.chars r)) by lia.
  rewrite take_app_length. apply str_chars.
Qed.


(** ** The regular expressions of the model *)

Lemma match_star_spec (a : Re.atom) (k : list ascii -> bool) (s : list ascii) :
  Re.match_star a k s = true <->
  exists w r, s = w ++ r /\ Re.star a w /\ k r = true.
Proof.
  induction s as [|c s IH]; simpl.
  - rewrite orb_false_r. split.
    + intros Hk. exists [], []. repeat split; [constructor | exact Hk].
    + intros (w & r & E & _ & Hk). symmetry in E.
      apply app_eq_nil in E as [_ ->]. exact Hk.
  - rewrite orb_true_iff, andb_true_iff, IH. split.
    + intros [Hk | [Hc (w & r & -> & Hs & Hk)]].
      * exists [], (c :: s). repeat split; [constructor | exact Hk].
      * exists (c :: w), r. repeat split; [now constructor | exact Hk].
    + intros (w & r & E & Hs & Hk). destruct Hs as [|c' w' Hc Hs]; simpl in E.
      * left. now rewrite E.
      * injection E as -> ->. right. split; [exact Hc|]. now exists w', r.
Qed.

Lemma match_here_spec (items : list Re.item) (s : list ascii) :
  Re.match_here items s = true <->
  exists w r, s = w ++ r /\ Re.lang items w.
Proof.
  revert s. induction items as [|[a|a] rest IH]; intros s; simpl.
  - split; [|reflexivity]. intros _. exists [], s. split; [reflexivity|constructor].
  - destruct s as [|c s].
    + split; [discriminate|]. intros (w & r & E & Hl).
      inversion Hl; subst. discriminate E.
    + rewrite andb_true_iff, IH. split.
      * intros [Hc (w & r & -> & Hl)]. exists (c :: w), r.
        split; [reflexivity | now constructor].
      * intros (w & r & E & Hl). inversion Hl; subst. simpl in E.
        injection E as -> ->. split; [assumption|]. eauto.
  - rewrite match_star_spec. split.
    + intros (w1 & r1 & -> & Hs & Hk). apply IH in Hk as (w2 & r & -> & Hl).
      exists (w1 ++ w2), r. rewrite <- app_assoc. split; [reflexivity|].
      now constructor.
    + intros (w & r & -> & Hl). inversion Hl; subst.
      exists w1, (w2 ++ r). rewrite <- app_assoc. split; [reflexivity|].
      split; [assumption|]. apply IH. eauto.
Qed.

Lemma lang_snoc (items : list Re.item) (c : ascii) (w : list ascii) :
  Re.lang (items ++ [Re.Once (Re.Lit c)]) w <->
  exists w', w = w' ++ [c] /\ Re.lang items w'.
Proof.
  revert w. induction items as [|[a|a] rest IH]; intros w; simpl.
  - split.
    + intros Hl. inversion Hl as [|? ? d w0 Hd Hn|]; subst.
      inversion Hn; subst. simpl in Hd. apply Ascii.eqb_eq in Hd as ->.
      exists []. split; [reflexivity|constructor].
    + intros (w' & -> & Hl). inversion Hl; subst. simpl.
      constructor; [apply Ascii.eqb_refl | constructor].
  - split.
    + intros Hl. inversion Hl as [|? ? d w0 Hd Hn|]; subst.
      apply IH in Hn as (w' & -> & Hn). exists (d :: w').
      split; [reflexivity | now constructor].
    + intros (w' & -> & Hl). inversion Hl; subst. simpl.
      constructor; [assumption|]. apply IH. eauto.
  - split.
    + intros Hl. inversion Hl as [| |? ? w1 w2 Hs Hn]; subst.
      apply IH in Hn as (w' & -> & Hn). exists (w1 ++ w').
      rewrite app_assoc. split; [reflexivity | now constructor].
    + intros (w' & -> & Hl). inversion Hl; subst. rewrite <- app_assoc.
      constructor; [assumption|]. apply IH. eauto.
Qed.

(** A pattern followed by a line feed, on a line that has its only line
    feed at its end: it matches at the start of the line exactly when the
    pattern matches the whole line. *)
Lemma match_here_line (items : list Re.item) (body : list ascii) :
  Re.newline ∉ body ->
  Re.match_here (items ++ [Re.Once (Re.Lit Re.newline)]) (body ++ [Re.newline])
    = true <-> Re.lang items body.
Proof.
  intros Hnl. rewrite match_here_spec. split.
  - intros (w & r & E & Hl). apply lang_snoc in Hl as (w' & -> & Hl).
    rewrite <- app_assoc in E. simpl in E.
    assert (Hlen : length body = length w').
    { apply (f_equal length) in E as E'. rewrite !length_app in E'. simpl in E'.
      destruct (decide (length w' < length body)) as [Hlt|]; [|lia].
      exfalso. apply Hnl.
      assert (Hm : (body ++ [Re.newline]) !! length w' = Some Re.newline).
      { rewrite E. apply list_lookup_middle. reflexivity. }
      rewrite lookup_app_l in Hm by exact Hlt.
      eapply list_elem_of_lookup_2. exact Hm. }
    apply app_inj_1 in E as [-> _]; [exact Hl | exact Hlen].
  - intros Hl. exists (body ++ [Re.newline]), []. rewrite app_nil_r.
    split; [reflexivity|]. apply lang_snoc. eauto.
Qed.



(** ** [_match] and [_glob] *)

Section MatchingFacts.
Context `{ReEngine}.

Lemma _match_ok (p s : string) (items : list Re.item) :
  Re.parse p = Re.Ok items ->
  _match p s = Re.match_here items (Py.chars s).
Proof.
  intros Hp. unfold _match. rewrite (re_match_ok _ _ _ Hp).
  unfold Py.chars. now destruct (Re.match_here _ _).
Qed.


(** The loop of [_glob] ends without an [IndexError] on a pattern that
    ends in a line feed. *)
Lemma glob_res_line (s : string) : is_Some (glob_res (s +:+ Py.nl)).
Proof.
  remember (String.length s) as n eqn:Hn. revert s Hn.
  induction n as [n IH] using lt_wf_ind. intros s ->.
  destruct s as [|c rest]; [now eexists|].
  change (String c rest +:+ Py.nl) with (String c (rest +:+ Py.nl)).
  assert (IHr : is_Some (glob_res (rest +:+ Py.nl))).
  { apply (IH (String.length rest)); [simpl; lia | reflexivity]. }
  simpl. destruct (Ascii.eqb c "\").
  - destruct rest as [|d rest'].
    + now eexists.
    + change (String d rest' +:+ Py.nl) with (String d (rest' +:+ Py.nl)) in *.
      cbv iota.
      destruct (Ascii.eqb d "*" || Ascii.eqb d "?" || Ascii.eqb d "\").
      * destruct (IH (String.length rest')) with (s := rest') as [r Hr];
          [simpl; lia | reflexivity |]. rewrite Hr. now eexists.
      * destruct IHr as [r Hr]. rewrite Hr. now eexists.
  - destruct IHr as [r Hr]. rewrite Hr.
    destruct (Ascii.eqb c "*"); [now eexists|].
    destruct (Ascii.eqb c "?"); now eexists.
Qed.

(** The test of [find_longest_match] raises nothing. *)
Lemma tagged_match_total (el line : string) :
  is_Some (tagged_match el line).
Proof.
  unfold tagged_match.
  destruct (Py.endswith el _ && _); [now eexists|].
  destruct (Py.endswith el _); [|now eexists].
  unfold _glob. destruct (glob_res_line (Py.drop_last 8 el)) as [r Hr].
  rewrite Hr. now eexists.
Qed.

Lemma glob_res_plain (el : string) :
  plain el = true -> glob_res el = Some (escape_all el).
Proof.
  induction el as [|c rest IH]; [reflexivity|]. simpl.
  destruct (Ascii.eqb c "\") eqn:Ec.
  - destruct rest as [|d rest']; [discriminate|].
    unfold glob_special. intros [Hd Hr]%andb_true_iff.
    apply negb_true_iff in Hd. rewrite Hd. now rewrite (IH Hr).
  - intros [[Hs Hq]%andb_true_iff Hr]%andb_true_iff.
    apply negb_true_iff in Hs, Hq. rewrite Hs, Hq. now rewrite (IH Hr).
Qed.

Lemma parse_go_escape (c : ascii) (acc : list Re.item) (rest : list ascii) :
  Re.parse_go acc (Py.chars (Re.escape c) ++ rest)
  = Re.parse_go (Re.Once (Re.Lit c) :: acc) rest.
Proof. destruct c as [[] [] [] [] [] [] [] []]; reflexivity. Qed.

Lemma parse_escape_all (s : string) (acc : list Re.item) :
  Re.parse_go acc (Py.chars (escape_all s))
  = Re.Ok (rev acc ++ lits (Py.chars s)).
Proof.
  revert acc. induction s as [|c rest IH]; intros acc; simpl.
  - now rewrite app_nil_r.
  - rewrite chars_app, parse_go_escape, IH. simpl.
    now rewrite <- app_assoc.
Qed.

Lemma lang_lits (l w : list ascii) : Re.lang (lits l) w <-> w = l.
Proof.
  revert w. induction l as [|c l IH]; intros w; simpl.
  - split; [intros Hl; now inversion Hl | intros ->; constructor].
  - split.
    + intros Hl. inversion Hl as [|? ? d w0 Hd Hn|]; subst.
      simpl in Hd. apply Ascii.eqb_eq in Hd as ->. f_equal. now apply IH.
    + intros ->. constructor; [apply Ascii.eqb_refl | now apply IH].
Qed.

Lemma match_here_lits (l s : list ascii) :
  Re.match_here (lits l) s = bool_decide (l `prefix_of` s).
Proof.
  apply eq_true_iff_eq. rewrite match_here_spec, bool_decide_eq_true. split.
  - intros (w & r & -> & Hl). apply lang_lits in Hl as ->. now exists r.
  - intros [r ->]. exists l, r. split; [reflexivity | now apply lang_lits].
Qed.

(** A plain pattern matches the lines that start with it. *)
Lemma _glob_plain (el l : string) :
  plain el = true -> _glob el l = Some (Py.startswith l el).
Proof.
  intros Hp. unfold _glob. rewrite (glob_res_plain _ Hp). simpl. f_equal.
  rewrite (_match_ok _ _ (lits (Py.chars el))).
  - apply match_here_lits.
  - unfold Re.parse. fold (Py.chars (escape_all el)).
    now rewrite parse_escape_all.
Qed.

End MatchingFacts.

Lemma plain_no_special (s : string) :
  (forall c, c ∈ Py.chars s -> glob_special c = false) -> plain s = true.
Proof.
  induction s as [|c rest IH]; [reflexivity|]. intros Hs. simpl.
  assert (Hc : glob_special c = false) by (apply Hs; left).
  assert (Hr : plain rest = true) by (apply IH; intros d Hd; apply Hs; now right).
  unfold glob_special in Hc.
  apply orb_false_iff in Hc as [[Hc1 Hc2]%orb_false_iff Hc3].
  now rewrite Hc1, Hc2, Hc3, Hr.
Qed.

Section TaggedLines.
Context `{ReEngine}.

Lemma glob_tag_not_re (p : string) :
  Py.endswith (p +:+ " (glob)" +:+ Py.nl) (" (re)" +:+ Py.nl) = false.
Proof.
  apply bool_decide_eq_false. intros [k Hk].
  rewrite chars_app in Hk. apply (f_equal (fun l => rev l)) in Hk.
  rewrite !rev_app_distr in Hk. simpl in Hk. discriminate Hk.
Qed.


Lemma tagged_match_glob (g line : string) :
  tagged_match (g +:+ " (glob)" +:+ Py.nl) line = _glob (g +:+ Py.nl) line.
Proof.
  unfold tagged_match. rewrite glob_tag_not_re, endswith_app. simpl.
  replace (Py.drop_last 8 (g +:+ " (glob)" +:+ Py.nl)) with g
    by (symmetry; apply (drop_last_app g (" (glob)" +:+ Py.nl))).
  reflexivity.
Qed.


End TaggedLines.







(** C7, as the code has it: a glob pattern without [*], [?] and backslash
    matches the lines that start with it. *)
Theorem glob_literal_matches_prefix `{ReEngine} (s l : string) :
  (forall c, c ∈ Py.chars s -> glob_special c = false) ->
  _glob s l = Some (Py.startswith l s).
Proof. intros Hs. apply _glob_plain. now apply plain_no_special. Qed.

Lemma glob_literal_matches_prefix_witness :
  _glob (H := reference_engine) "a.b" "a.bc" = Some (Py.startswith "a.bc" "a.b").
Proof.
  apply (glob_literal_matches_prefix (H := reference_engine)).
  intros c Hc.
  repeat (apply elem_of_cons in Hc as [->|Hc]; [reflexivity|]).
  now apply elem_of_nil in Hc.
Defined.

(** C7 as stated fails: the pattern [a] matches the line [ab], which is
    another line. *)
Lemma glob_literal_counterexample :
  _glob (H := reference_engine) "a" "ab" = Some true
  /\ String.eqb "ab" "a" = false.
Proof. split; reflexivity. Qed.

(** ** [find_longest_match] puts [self.a] back *)

Lemma restore_app (alo : nat) (ms1 ms2 : list (nat * string)) (a : list string) :
  restore alo (ms1 ++ ms2) a = restore alo ms2 (restore alo ms1 a).
Proof.
  revert a. induction ms1 as [|[n el] ms1 IH]; intros a; simpl; [reflexivity|].
  apply IH.
Qed.

Lemma restore_insert (alo n : nat) (line : string)
    (ms : list (nat * string)) (a : list string) :
  Forall (fun m => m.1 < n) ms ->
  restore alo ms (<[alo + n := line]> a) = <[alo + n := line]> (restore alo ms a).
Proof.
  revert a. induction ms as [|[m el] ms IH]; intros a Hms; simpl; [reflexivity|].
  apply Forall_cons in Hms as [Hm Hms]. simpl in Hm.
  rewrite list_insert_insert_ne by lia. now apply IH.
Qed.

Section Frame.
Context `{ReEngine}.

Lemma substitute_spec (alo : nat) (els lines : list string) :
  forall (n : nat) (a' : list string) (ms : list (nat * string))
         (a0 : list string),
    (forall k el, els !! k = Some el -> a0 !! (alo + n + k) = Some el) ->
    length a' = length a0 ->
    restore alo ms a' = a0 ->
    Forall (fun m => m.1 < n) ms ->
    exists a1 ms1,
      substitute alo n els lines a' ms = Some (a1, ms1)
      /\ restore alo ms1 a1 = a0 /\ length a1 = length a0.
Proof.
  revert lines. induction els as [|el els IH]; intros lines n a' ms a0 Hels Hlen Hres Hms.
  - exists a', ms. now destruct lines.
  - destruct lines as [|line lines]; [now exists a', ms|]. simpl.
    destruct (tagged_match_total el line) as [m Hm]. rewrite Hm. simpl.
    assert (Hels' : forall k e, els !! k = Some e -> a0 !! (alo + S n + k) = Some e).
    { intros k e Hk. replace (alo + S n + k) with (alo + n + S k) by lia.
      now apply Hels. }
    destruct m.
    + apply IH; [exact Hels' | now rewrite length_insert | |].
      * rewrite restore_app, (restore_insert _ _ _ _ _ Hms), Hres. simpl.
        rewrite list_insert_insert_eq. apply list_insert_id.
        specialize (Hels 0 el eq_refl). now rewrite Nat.add_0_r in Hels.
      * apply Forall_app. split.
        -- eapply Forall_impl; [exact Hms|]. simpl. intros; lia.
        -- repeat constructor.
    + apply IH; [exact Hels' | exact Hlen | exact Hres |].
      eapply Forall_impl; [exact Hms|]. simpl. intros; lia.
Qed.

Lemma substitute_window (a b : list string) (alo ahi blo bhi : nat) :
  exists a1 ms,
    substitute alo 0 (Difflib.slice a alo ahi) (Difflib.slice b blo bhi) a []
    = Some (a1, ms)
    /\ restore alo ms a1 = a /\ length a1 = length a.
Proof.
  apply substitute_spec; [|reflexivity|reflexivity|constructor].
  intros k el Hk. unfold Difflib.slice in Hk.
  apply lookup_take_Some in Hk as [Hk _]. rewrite lookup_drop in Hk.
  now rewrite Nat.add_0_r.
Qed.

End Frame.

(** ** The block that [difflib] finds lies in the window *)

Module DifflibFacts.
Import Difflib.

Section Window.
Variables (a b : list string) (alo ahi blo bhi : nat).
Hypothesis Hvalid : valid (length a) (length b) (alo, ahi, blo, bhi).

Lemma row_ok (j2len : gmap nat nat) (i : nat) (js : list nat) :
  alo <= i -> j2len_ok alo blo i j2len ->
  forall newj2len best,
    j2len_ok alo blo (S i) newj2len -> within (alo, S i, blo, bhi) best ->
    j2len_ok alo blo (S i) (row j2len i blo bhi js newj2len best).1
    /\ within (alo, S i, blo, bhi) (row j2len i blo bhi js newj2len best).2.
Proof.
  intros Hi Hj2. induction js as [|j js IH]; intros newj2len best Hnew Hbest;
    simpl; [now split|].
  destruct (Nat.ltb_spec j blo) as [Hlt|Hge]; [now apply IH|].
  destruct (Nat.leb_spec bhi j) as [Hhi|Hlo]; [now split|].
  assert (Hk : j2len_get j2len j + 1 <= S i - alo
               /\ j2len_get j2len j + 1 <= j + 1 - blo).
  { unfold j2len_get. destruct j as [|j']; [lia|].
    destruct (j2len !! j') as [k'|] eqn:Ek; simpl; [|lia].
    apply Hj2 in Ek. lia. }
  apply IH.
  - intros j0 k0. rewrite lookup_insert. case_decide as Hj.
    + intros [= <-]. subst j0. lia.
    + apply Hnew.
  - destruct best as [[bi bj] bs]. simpl.
    destruct (Nat.ltb_spec bs (j2len_get j2len j + 1)); [|exact Hbest].
    simpl. lia.
Qed.

Lemma rows_ok (len : nat) :
  forall i j2len best,
    alo <= i -> i + len <= ahi ->
    j2len_ok alo blo i j2len -> within (alo, i, blo, bhi) best ->
    exists best',
      rows a b blo bhi (seq i len) j2len best = Some best'
      /\ within (alo, i + len, blo, bhi) best'.
Proof.
  destruct Hvalid as (Ha1 & Ha2 & Hb1 & Hb2).
  induction len as [|len IH]; intros i j2len best Hi Hlen Hj2 Hbest; simpl.
  - exists best. now rewrite Nat.add_0_r.
  - destruct (lookup_lt_is_Some_2 a i) as [x Hx]; [lia|]. rewrite Hx. simpl.
    assert (Hbest' : within (alo, S i, blo, bhi) best).
    { destruct best as [[bi bj] bs]. simpl in *. lia. }
    assert (Hempty : j2len_ok alo blo (S i) ∅).
    { intros j k. now rewrite lookup_empty. }
    pose proof (row_ok j2len i (b2j_get b x) Hi Hj2 ∅ best Hempty Hbest')
      as [Hn Hb].
    destruct (row j2len i blo bhi (b2j_get b x) ∅ best) as [newj2len best'].
    replace (i + S len) with (S i + len) by lia.
    apply IH; [lia | lia | exact Hn | exact Hb].
Qed.

Lemma extend_left_ok (besti : nat) :
  forall bestj bestsize,
    within (alo, ahi, blo, bhi) (besti, bestj, bestsize) ->
    exists x, extend_left a b alo blo besti bestj bestsize = Some x
              /\ within (alo, ahi, blo, bhi) x.
Proof.
  destruct Hvalid as (Ha1 & Ha2 & Hb1 & Hb2).
  induction besti as [|i' IH]; intros bestj bestsize Hw; simpl.
  - now eexists.
  - destruct (Nat.ltb_spec alo (S i')) as [Hi|Hi]; simpl; [|now eexists].
    destruct (Nat.ltb_spec blo bestj) as [Hj|Hj]; simpl; [|now eexists].
    simpl in Hw.
    destruct (lookup_lt_is_Some_2 b (bestj - 1)) as [y Hy]; [lia|].
    destruct (lookup_lt_is_Some_2 a i') as [x Hx]; [lia|].
    rewrite Hy, Hx. simpl. destruct (String.eqb x y); [|now eexists].
    apply IH. simpl. lia.
Qed.

Lemma extend_right_ok (besti bestj : nat) (d : nat) :
  forall bestsize,
    within (alo, ahi, blo, bhi) (besti, bestj, bestsize) ->
    exists s, extend_right a b ahi bhi besti bestj d bestsize = Some s
              /\ within (alo, ahi, blo, bhi) (besti, bestj, s).
Proof.
  destruct Hvalid as (Ha1 & Ha2 & Hb1 & Hb2).
  induction d as [|d IH]; intros bestsize Hw; simpl.
  - now eexists.
  - destruct (Nat.ltb_spec (besti + bestsize) ahi) as [Hi|Hi]; simpl;
      [|now eexists].
    destruct (Nat.ltb_spec (bestj + bestsize) bhi) as [Hj|Hj]; simpl;
      [|now eexists].
    destruct (lookup_lt_is_Some_2 b (bestj + bestsize)) as [y Hy]; [lia|].
    destruct (lookup_lt_is_Some_2 a (besti + bestsize)) as [x Hx]; [lia|].
    rewrite Hy, Hx. simpl. destruct (String.eqb x y); [|now eexists].
    apply IH. simpl in *. lia.
Qed.

(** On a window inside the two lists, the base class finds a block inside
    the window, and raises nothing. *)
Lemma find_longest_match_ok :
  exists x, Difflib.find_longest_match a b alo ahi blo bhi = Some x
            /\ within (alo, ahi, blo, bhi) x.
Proof.
  pose proof Hvalid as (Ha1 & Ha2 & Hb1 & Hb2).
  unfold Difflib.find_longest_match.
  destruct (rows_ok (ahi - alo) alo ∅ (alo, blo, 0)) as ([[bi bj] bs] & Hr & Hw);
    [lia | lia | intros j k; now rewrite lookup_empty | simpl; lia |].
  rewrite Hr. simpl. replace (alo + (ahi - alo)) with ahi in Hw by lia.
  destruct (extend_left_ok bi bj bs Hw) as ([[bi' bj'] bs'] & Hl & Hw').
  rewrite Hl. simpl.
  destruct (extend_right_ok bi' bj' (ahi - (bi' + bs')) bs' Hw') as (s & Hs & Hw'').
  rewrite Hs. simpl. now eexists.
Qed.

End Window.
End DifflibFacts.

Section Blocks.
Context `{ReEngine}.

(** [SequenceMatcher.find_longest_match] on a window inside the lists:
    it returns, [self.a] is what it was, and the block is in the window. *)
Lemma find_longest_match_frame (a b : list string) (alo ahi blo bhi : nat) :
  valid (length a) (length b) (alo, ahi, blo, bhi) ->
  exists x, find_longest_match a b alo ahi blo bhi = Some (a, x)
            /\ within (alo, ahi, blo, bhi) x.
Proof.
  intros Hv. unfold find_longest_match.
  destruct (substitute_window a b alo ahi blo bhi) as (a1 & ms & Hs & Hr & Hl).
  rewrite Hs. simpl.
  destruct (DifflibFacts.find_longest_match_ok a1 b alo ahi blo bhi)
    as (x & Hx & Hw); [now rewrite Hl|].
  rewrite Hx. simpl. rewrite Hr. now exists x.
Qed.

(** The loop of [get_matching_blocks] ends before its fuel does, and leaves
    [self.a] as it was. *)
Lemma matching_loop_fuel (a b : list string) (fuel : nat) :
  forall queue blocks,
    Forall (valid (length a) (length b)) queue ->
    sum_list_with weight queue <= fuel ->
    exists blocks',
      Difflib.matching_loop find_longest_match fuel a b queue blocks
      = Some (a, blocks').
Proof.
  induction fuel as [|fuel IH]; intros queue blocks Hq Hw.
  - destruct queue as [|[[[alo ahi] blo] bhi] queue]; [now eexists|].
    simpl in Hw. lia.
  - destruct queue as [|[[[alo ahi] blo] bhi] queue]; [now eexists|].
    apply Forall_cons in Hq as [Hv Hq]. simpl in Hw |- *.
    destruct (find_longest_match_frame a b alo ahi blo bhi Hv)
      as ([[i j] k] & Hx & Hin).
    rewrite Hx. simpl. simpl in Hin, Hv.
    destruct (Nat.ltb_spec 0 k) as [Hk|Hk].
    + apply IH.
      * repeat apply Forall_app_2; [| |exact Hq].
        -- destruct (_ && _); repeat constructor; simpl; lia.
        -- destruct (_ && _); repeat constructor; simpl; lia.
      * rewrite !sum_list_with_app.
        destruct (Nat.ltb_spec (i + k) ahi), (Nat.ltb_spec (j + k) bhi),
          (Nat.ltb_spec alo i), (Nat.ltb_spec blo j); simpl; lia.
    + apply IH; [exact Hq | lia].
Qed.

Lemma get_matching_blocks_frame (a b : list string) :
  exists blocks,
    Difflib.get_matching_blocks find_longest_match a b = Some (a, blocks).
Proof.
  unfold Difflib.get_matching_blocks.
  destruct (matching_loop_fuel a b (S (length a + length b))
              [(0, length a, 0, length b)] []) as [blocks Hb].
  - repeat constructor; simpl; lia.
  - simpl. lia.
  - rewrite Hb. simpl. now eexists.
Qed.

(** The matcher always gives its groups, and [self.a] is unchanged when it
    has. *)
Lemma get_grouped_opcodes_frame (a b : list string) (n : nat) :
  exists groups,
    Difflib.get_grouped_opcodes find_longest_match a b n = Some (a, groups).
Proof.
  unfold Difflib.get_grouped_opcodes, Difflib.get_opcodes.
  destruct (get_matching_blocks_frame a b) as [blocks Hb]. rewrite Hb. simpl.
  now eexists.
Qed.

End Blocks.



(** ** A sequence compared with itself is one block *)

Module SameSequence.
Import Difflib.

Lemma b2j_get_popular (b : list string) (x : string) :
  b2j_get b x = if popular b x then [] else indices_from 0 x b.
Proof. reflexivity. Qed.

Lemma indices_from_range (x : string) (b : list string) :
  forall s j, j ∈ indices_from s x b -> s <= j < s + length b.
Proof.
  induction b as [|y b IH]; intros s j Hj; simpl in Hj.
  - now apply elem_of_nil in Hj.
  - destruct (String.eqb x y).
    + apply elem_of_cons in Hj as [->|Hj]; [simpl; lia|].
      apply IH in Hj. simpl. lia.
    + apply IH in Hj. simpl. lia.
Qed.

Lemma indices_from_lookup (x : string) (b : list string) :
  forall s j, j ∈ indices_from s x b -> b !! (j - s) = Some x.
Proof.
  induction b as [|y b IH]; intros s j Hj; simpl in Hj.
  - now apply elem_of_nil in Hj.
  - destruct (String.eqb x y) eqn:E.
    + apply elem_of_cons in Hj as [->|Hj].
      * apply String.eqb_eq in E as ->. now rewrite Nat.sub_diag.
      * pose proof (indices_from_range _ _ _ _ Hj) as Hr.
        apply IH in Hj. replace (j - s) with (S (j - S s)) by lia. exact Hj.
    + pose proof (indices_from_range _ _ _ _ Hj) as Hr.
      apply IH in Hj. replace (j - s) with (S (j - S s)) by lia. exact Hj.
Qed.

Lemma indices_from_split (x : string) (b1 b2 : list string) :
  forall s,
    indices_from s x (b1 ++ x :: b2)
    = indices_from s x b1
      ++ (s + length b1) :: indices_from (S (s + length b1)) x b2.
Proof.
  induction b1 as [|y b1 IH]; intros s; simpl.
  - rewrite String.eqb_refl. now rewrite Nat.add_0_r.
  - rewrite IH. replace (S s + length b1) with (s + S (length b1)) by lia.
    now destruct (String.eqb x y).
Qed.

Section Row.
Variables (j2len : gmap nat nat) (i n : nat).

Lemma row_app (l1 l2 : list nat) :
  (forall j, j ∈ l1 -> j < n) ->
  forall new best,
    row j2len i 0 n (l1 ++ l2) new best
    = row j2len i 0 n l2 (row j2len i 0 n l1 new best).1
          (row j2len i 0 n l1 new best).2.
Proof.
  induction l1 as [|j l1 IH]; intros Hl new best; simpl; [reflexivity|].
  assert (Hj : j < n) by (apply Hl; left).
  destruct (Nat.leb_spec n j); [lia|].
  apply IH. intros j' Hj'. apply Hl. now right.
Qed.

Lemma row_keeps_best (js : list nat) :
  forall new best,
    (forall j, j ∈ js -> j2len_get j2len j + 1 <= best.2) ->
    (row j2len i 0 n js new best).2 = best.
Proof.
  induction js as [|j js IH]; intros new best Hjs; simpl; [reflexivity|].
  destruct (Nat.leb_spec n j); [reflexivity|].
  assert (Hj : j2len_get j2len j + 1 <= best.2) by (apply Hjs; left).
  destruct (Nat.ltb_spec best.2 (j2len_get j2len j + 1)); [lia|].
  apply IH. intros j' Hj'. apply Hjs. now right.
Qed.

Lemma row_lookup (js : list nat) :
  (forall j, j ∈ js -> j < n) ->
  forall new best j',
    (row j2len i 0 n js new best).1 !! j'
    = if decide (j' ∈ js) then Some (j2len_get j2len j' + 1) else new !! j'.
Proof.
  induction js as [|j js IH]; intros Hjs new best j'; cbn [row].
  - destruct (decide (j' ∈ [])) as [Hin|]; [|reflexivity].
    now apply elem_of_nil in Hin.
  - assert (Hj : j < n) by (apply Hjs; left). simpl.
    destruct (Nat.leb_spec n j); [lia|].
    rewrite IH by (intros j0 Hj0; apply Hjs; now right).
    destruct (decide (j' ∈ js)) as [Hin|Hnin].
    + rewrite decide_True; [reflexivity | now right].
    + destruct (decide (j' = j)) as [->|Hne].
      * rewrite decide_True by left. apply lookup_insert_eq.
      * rewrite decide_False.
        -- now apply lookup_insert_ne.
        -- intros [?|?]%elem_of_cons; contradiction.
Qed.

End Row.

Section Same.
Variable b : list string.

Lemma run_before_le (i : nat) : run_before b i <= i.
Proof.
  induction i as [|i IH]; simpl; [lia|].
  destruct (b !! i) as [x|]; [|lia]. destruct (popular b x); lia.
Qed.

#[local] Arguments run_before : simpl never.

Lemma run_before_step (i : nat) (x : string) :
  b !! i = Some x -> popular b x = false ->
  run_before b (S i) = S (run_before b i).
Proof. intros Hx Hp. unfold run_before; fold run_before. now rewrite Hx, Hp. Qed.

(** One row of the matrix, for the line [x] at index [i]. *)
Lemma row_same (i : nat) (x : string) (j2len : gmap nat nat) (best : block) :
  b !! i = Some x ->
  prev_ok b i j2len -> best_ok b i best ->
  prev_ok b (S i) (row j2len i 0 (length b) (b2j_get b x) ∅ best).1
  /\ best_ok b (S i) (row j2len i 0 (length b) (b2j_get b x) ∅ best).2.
Proof.
  intros Hx (Hlt & Hgt & Hdiag) (Hd & Hle & Hbs).
  rewrite b2j_get_popular. destruct (popular b x) eqn:Hpop.
  - (* a popular line: nothing in this row *)
    assert (Hr : run_before b (S i) = 0)
      by (unfold run_before; fold run_before; now rewrite Hx, Hpop).
    cbn [row fst snd]. split.
    + unfold prev_ok, j2len_get. repeat split.
      * intros [|j] _; [lia|]. rewrite lookup_empty. cbn [default]. lia.
      * intros [|j] _; [lia|]. rewrite lookup_empty. cbn [default]. lia.
      * rewrite lookup_empty, Hr. reflexivity.
    + repeat split; [exact Hd | lia |].
      intros j Hj. destruct (decide (j = S i)) as [->|]; [lia|].
      apply Hbs. lia.
  - pose proof (run_before_step i x Hx Hpop) as Hr.
    pose proof (take_drop_middle b i x Hx) as Hsplit.
    assert (Hi : i < length b) by (eapply lookup_lt_Some; exact Hx).
    assert (Hti : length (take i b) = i) by (rewrite length_take; lia).
    pose proof (indices_from_split x (take i b) (drop (S i) b) 0) as Hidx.
    rewrite Hsplit, Hti in Hidx. simpl in Hidx.
    set (l1 := indices_from 0 x (take i b)) in *.
    set (l2 := indices_from (S i) x (drop (S i) b)) in *.
    assert (Hl1 : forall j, j ∈ l1 -> j < i).
    { intros j Hj. apply indices_from_range in Hj. lia. }
    assert (Hl2 : forall j, j ∈ l2 -> i < j < length b).
    { intros j Hj. apply indices_from_range in Hj.
      rewrite length_drop in Hj. lia. }
    assert (Hall : forall j, j ∈ indices_from 0 x b -> j < length b).
    { intros j Hj. apply indices_from_range in Hj. lia. }
    assert (Hnonpop : forall j, j ∈ indices_from 0 x b ->
              run_before b (S j) = S (run_before b j)).
    { intros j Hj. apply (run_before_step j x); [|exact Hpop].
      apply indices_from_lookup in Hj. now rewrite Nat.sub_0_r in Hj. }
    split.
    + (* the lengths of the new row *)
      assert (Hget : forall j,
                j2len_get (row j2len i 0 (length b) (indices_from 0 x b) ∅
                             best).1 (S j)
                = if decide (j ∈ indices_from 0 x b)
                  then j2len_get j2len j + 1 else 0).
      { intros j. unfold j2len_get at 1.
        rewrite (row_lookup j2len i (length b) _ Hall), lookup_empty.
        now destruct (decide _). }
      unfold prev_ok. repeat split.
      * intros [|j] Hj; [simpl; lia|]. rewrite Hget.
        destruct (decide _) as [Hin|]; [|lia]. rewrite (Hnonpop j Hin).
        destruct (decide (j = i)) as [->|]; [lia|].
        specialize (Hlt j). lia.
      * intros [|j] Hj; [lia|]. rewrite Hget, Hr.
        destruct (decide _) as [Hin|]; [|lia].
        specialize (Hgt j). lia.
      * rewrite Hget, Hr. rewrite decide_True; [lia|].
        rewrite Hidx. apply elem_of_app. right. left.
    + (* the best block: only the cell on the diagonal can change it *)
      rewrite Hidx.
      rewrite (row_app j2len i (length b) l1 (i :: l2))
        by (intros j Hj; apply Hl1 in Hj; lia).
      rewrite (row_keeps_best j2len i (length b) l1).
      2:{ intros j Hj. specialize (Hl1 j Hj). specialize (Hlt j Hl1).
          assert (Hin : j ∈ indices_from 0 x b)
            by (rewrite Hidx; apply elem_of_app; now left).
          specialize (Hnonpop j Hin). specialize (Hbs (S j)). lia. }
      change (i :: l2) with ([i] ++ l2).
      rewrite (row_app j2len i (length b) [i] l2)
        by (intros j Hj; apply list_elem_of_singleton in Hj; lia).
      set (cell := row j2len i 0 (length b) [i] _ best).
      assert (Hcell : best_ok b (S i) cell.2
                      /\ run_before b (S i) <= (cell.2).2).
      { unfold cell. simpl. destruct (Nat.leb_spec (length b) i); [lia|].
        simpl. rewrite Hdiag. destruct best as [[bi bj] bs]. simpl in *.
        pose proof (run_before_le i) as Hri.
        destruct (Nat.ltb_spec bs (run_before b i + 1)); simpl.
        - split; [|lia]. unfold best_ok. simpl. repeat split; [lia|].
          intros j Hj. destruct (decide (j = S i)) as [->|]; [lia|].
          specialize (Hbs j). lia.
        - split; [|lia]. unfold best_ok. simpl.
          repeat split; [exact Hd | lia |].
          intros j Hj. destruct (decide (j = S i)) as [->|]; [lia|].
          apply Hbs. lia. }
      destruct Hcell as [Hcb Hcr].
      rewrite (row_keeps_best j2len i (length b) l2); [exact Hcb|].
      intros j Hj. specialize (Hl2 j Hj). specialize (Hgt j). lia.
Qed.

Lemma rows_same (len : nat) :
  forall i j2len best,
    i + len <= length b ->
    prev_ok b i j2len -> best_ok b i best ->
    exists best',
      rows b b 0 (length b) (seq i len) j2len best = Some best'
      /\ best'.1.1 = best'.1.2 /\ best'.1.1 + best'.2 <= i + len.
Proof.
  induction len as [|len IH]; intros i j2len best Hlen Hprev Hbest; simpl.
  - exists best. destruct Hbest as (Hd & Hle & _).
    split; [reflexivity|]. split; [exact Hd | lia].
  - destruct (lookup_lt_is_Some_2 b i) as [x Hx]; [lia|]. rewrite Hx. simpl.
    destruct (row_same i x j2len best Hx Hprev Hbest) as [Hp Hb].
    destruct (row j2len i 0 (length b) (b2j_get b x) ∅ best)
      as [newj2len best'].
    replace (i + S len) with (S i + len) by lia.
    apply IH; [lia | exact Hp | exact Hb].
Qed.

Lemma extend_left_same (besti : nat) :
  forall bestsize,
    besti + bestsize <= length b ->
    extend_left b b 0 0 besti besti bestsize = Some (0, 0, besti + bestsize).
Proof.
  induction besti as [|i' IH]; intros bestsize Hle; [reflexivity|].
  cbn [extend_left]. simpl (0 <? S i')%nat. cbn [andb].
  replace (S i' - 1) with i' by lia.
  destruct (lookup_lt_is_Some_2 b i') as [x Hx]; [lia|]. rewrite Hx. simpl.
  rewrite String.eqb_refl, IH by lia. do 2 f_equal. lia.
Qed.

Lemma extend_right_same (d : nat) :
  forall bestsize,
    bestsize + d = length b ->
    extend_right b b (length b) (length b) 0 0 d bestsize = Some (length b).
Proof.
  induction d as [|d IH]; intros bestsize Hd; simpl.
  - f_equal. lia.
  - destruct (Nat.ltb_spec bestsize (length b)); [|lia]. simpl.
    destruct (lookup_lt_is_Some_2 b bestsize) as [x Hx]; [lia|].
    rewrite Hx. simpl. rewrite String.eqb_refl. apply IH. lia.
Qed.

(** The base class, on a sequence and itself: the whole of it. *)
Lemma find_longest_match_same :
  Difflib.find_longest_match b b 0 (length b) 0 (length b)
  = Some (0, 0, length b).
Proof.
  unfold Difflib.find_longest_match. rewrite Nat.sub_0_r.
  destruct (rows_same (length b) 0 ∅ (0, 0, 0)) as ([[bi bj] bs] & Hr & Hd & Hle).
  - lia.
  - unfold prev_ok, j2len_get. repeat split.
    + intros j Hj. lia.
    + intros [|j] _; [lia|]. now rewrite lookup_empty.
  - unfold best_ok. simpl. repeat split; [lia|].
    intros j Hj. assert (j = 0) as -> by lia. reflexivity.
  - rewrite Hr. simpl in *. subst bj.
    rewrite extend_left_same by lia. simpl.
    rewrite extend_right_same by lia. reflexivity.
Qed.

End Same.
End SameSequence.

Section Agreeing.
Context `{ReEngine}.

(** The first loop of [find_longest_match] makes the expected lines that
    agree with the actual lines equal to them. *)
Lemma substitute_agree (els lines : list string) :
  Forall2 agree els lines ->
  forall pre ms,
    exists ms',
      substitute 0 (length pre) els lines (pre ++ els) ms
      = Some (pre ++ lines, ms').
Proof.
  induction 1 as [|el line els lines Hag _ IH]; intros pre ms.
  - now exists ms.
  - simpl. destruct (tagged_match_total el line) as [m Hm]. rewrite Hm. simpl.
    destruct m.
    + replace (<[length pre := line]> (pre ++ el :: els))
        with ((pre ++ [line]) ++ els).
      * destruct (IH (pre ++ [line]) (ms ++ [(length pre, el)])) as [ms' Hs].
        rewrite length_app in Hs. simpl in Hs.
        rewrite Nat.add_1_r in Hs. exists ms'. rewrite Hs.
        now rewrite <- app_assoc.
      * rewrite <- app_assoc. simpl.
        rewrite insert_app_r_alt by lia. now rewrite Nat.sub_diag.
    + destruct Hag as [->|Hag]; [|congruence].
      destruct (IH (pre ++ [line]) ms) as [ms' Hs].
      rewrite length_app in Hs. simpl in Hs.
      rewrite Nat.add_1_r, <- !app_assoc in Hs. simpl in Hs.
      exists ms'. exact Hs.
Qed.

Lemma slice_all {A} (l : list A) : Difflib.slice l 0 (length l) = l.
Proof.
  unfold Difflib.slice. rewrite Nat.sub_0_r, drop_0. apply firstn_all.
Qed.

(** Sequences that agree line by line give the block that covers them. *)
Lemma find_longest_match_agree (a b : list string) :
  Forall2 agree a b ->
  find_longest_match a b 0 (length a) 0 (length b)
  = Some (a, (0, 0, length b)).
Proof.
  intros Hag. pose proof (Forall2_length _ _ _ Hag) as Hlen.
  unfold find_longest_match.
  destruct (substitute_window a b 0 (length a) 0 (length b))
    as (a1 & ms & Hs & Hr & _).
  destruct (substitute_agree a b Hag [] []) as [ms' Hs'].
  rewrite !slice_all in *. simpl in Hs'. rewrite Hs' in Hs.
  injection Hs as <- <-. rewrite Hs'. simpl.
  rewrite Hlen, SameSequence.find_longest_match_same. simpl.
  now rewrite Hr.
Qed.

(** The groups of one block that covers both sequences: none. *)
Lemma grouped_single (n : nat) :
  Difflib.grouped 3
    (Difflib.opcodes_from 0 0
       (Difflib.collapse (0, 0, 0)
          (merge_sort Difflib.block_le [(0, 0, S n)]) ++ [(S n, S n, 0)]))
  = [].
Proof.
  change (merge_sort Difflib.block_le [(0, 0, S n)]) with [(0, 0, S n)].
  cbn -[Nat.ltb Nat.min Nat.max Nat.sub].
  change (0 <? S n)%nat with true. cbn -[Nat.ltb Nat.min Nat.max Nat.sub].
  rewrite !Nat.ltb_irrefl. cbn -[Nat.ltb Nat.min Nat.max Nat.sub].
  change (0 <? S n)%nat with true. cbn -[Nat.ltb Nat.min Nat.max Nat.sub].
  destruct (Nat.ltb_spec 6 (S n `min` (0 `max` (S n - 3) + 3) - 0 `max` (S n - 3)));
    [lia | reflexivity].
Qed.

Lemma matching_loop_agree (a b : list string) (fuel : nat) :
  Forall2 agree a b ->
  Difflib.matching_loop find_longest_match (S fuel) a b
    [(0, length a, 0, length b)] []
  = Some (a, if (0 <? length b)%nat then [(0, 0, length b)] else []).
Proof.
  intros Hag. pose proof (Forall2_length _ _ _ Hag) as Hlen.
  cbn [Difflib.matching_loop]. rewrite (find_longest_match_agree a b Hag).
  cbn [mbind option_bind]. rewrite Hlen.
  destruct (0 <? length b)%nat.
  - rewrite Nat.add_0_l, !Nat.ltb_irrefl. cbn [andb app].
    now destruct fuel.
  - now destruct fuel.
Qed.

(** And no group. *)
Lemma get_grouped_opcodes_agree (a b : list string) :
  Forall2 agree a b ->
  Difflib.get_grouped_opcodes find_longest_match a b 3 = Some (a, []).
Proof.
  intros Hag. pose proof (Forall2_length _ _ _ Hag) as Hlen.
  unfold Difflib.get_grouped_opcodes, Difflib.get_opcodes,
    Difflib.get_matching_blocks.
  rewrite (matching_loop_agree a b _ Hag). cbn [mbind option_bind].
  rewrite Hlen. destruct (length b) as [|n].
  - reflexivity.
  - change (0 <? S n)%nat with true. cbv iota. now rewrite grouped_single.
Qed.

End Agreeing.

(** C6: when the matcher gives no group, and so whenever the expected and
    the actual lines are the same line for line or differ only where a
    tagged expected line matches the actual line, [unified_diff] yields
    nothing, not even the two header lines, and [test] returns the empty
    list as its diff. *)
Theorem no_hunks_no_diff `{ReEngine}
    (a b : list string) (fromfile tofile : string) :
  Forall2 agree a b
  \/ (exists a',
        Difflib.get_grouped_opcodes find_longest_match a b 3 = Some (a', [])) ->
  unified_diff a b fromfile tofile = Some (a, [])
  /\ (forall sh salt abspath,
        reconstruct salt (r_after (read_file salt a))
          (sh (r_stdin (read_file salt a))) = Some b ->
        test sh salt abspath a = Some (a, b, [])).
Proof.
  intros Hg.
  assert (Hn : Difflib.get_grouped_opcodes find_longest_match a b 3
               = Some (a, [])).
  { destruct Hg as [Hag | [a' Hg]]; [now apply get_grouped_opcodes_agree|].
    destruct (get_grouped_opcodes_frame a b 3) as [groups Hg'].
    rewrite Hg' in Hg. injection Hg as <- ->. exact Hg'. }
  assert (Hd : forall f t, unified_diff a b f t = Some (a, [])).
  { intros f t. unfold unified_diff. now rewrite Hn. }
  split; [apply Hd|].
  intros sh salt abspath Hr. unfold test. rewrite Hr. simpl.
  now rewrite Hd.
Qed.

Lemma no_hunks_no_diff_witness :
  unified_diff (H := reference_engine)
    [ln "  $ date"; ln "  20.* (re)"] [ln "  $ date"; ln "  2026-11-04"]
    "t" "t.err"
  = Some ([ln "  $ date"; ln "  20.* (re)"], [])
  /\ (forall sh salt abspath,
        reconstruct salt
          (r_after (read_file salt [ln "  $ date"; ln "  20.* (re)"]))
          (sh (r_stdin (read_file salt [ln "  $ date"; ln "  20.* (re)"])))
        = Some [ln "  $ date"; ln "  2026-11-04"] ->
        test (H := reference_engine) sh salt abspath
          [ln "  $ date"; ln "  20.* (re)"]
        = Some ([ln "  $ date"; ln "  20.* (re)"],
                [ln "  $ date"; ln "  2026-11-04"], [])).
Proof.
  apply (no_hunks_no_diff (H := reference_engine)).
  left. constructor; [left; reflexivity|].
  constructor; [right; reflexivity | constructor].
Defined.

(** ** [test]: the transcript from the output of the shell *)

Lemma pop_presalt_snoc (rest : list string) (presalt : string) :
  pop_presalt (rest ++ [presalt]) = Some (rest ++ mark presalt).
Proof.
  unfold pop_presalt, mark. rewrite last_snoc, removelast_last.
  destruct (String.eqb presalt _); [now rewrite app_nil_r | reflexivity].
Qed.

(** All of lines 167-174. *)
Lemma on_sentinel_spec (line : string) (rest : list string) (presalt : string)
    (after : gmap Z (list string)) (pos ret pos' : Z) :
  Py.split line !! 2 ≫= Py.int = Some ret ->
  Py.split line !! 1 ≫= Py.int = Some pos' ->
  on_sentinel line (Writer (rest ++ [presalt]) after pos)
  = Some (Writer (rest ++ mark presalt
                  ++ (if bool_decide (ret ≠ 0%Z) then [status_line ret] else [])
                  ++ default [] (after !! pos))
                 (delete pos after) pos').
Proof.
  intros Hret Hpos. unfold on_sentinel. simpl.
  rewrite pop_presalt_snoc, Hret, Hpos. simpl. unfold status_line.
  destruct (bool_decide (ret ≠ 0%Z)); simpl;
    now rewrite <- ?app_assoc, ?app_nil_r.
Qed.




(** C5: a sentinel that reports the exit status [c], not zero, puts the
    line ["  [c]"] after the output collected and before the lines of the
    file that follow the command.  So scenario D gives no diff, and an exit
    status 7 that the file does not declare gives a diff that inserts
    ["  [7]"] after the output. *)
Theorem exit_status_line `{ReEngine}
    (salt line : string) (rest : list string) (presalt : string)
    (after : gmap Z (list string)) (pos c pos' : Z) :
  Py.startswith line salt = true ->
  Py.split line !! 2 ≫= Py.int = Some c ->
  Py.split line !! 1 ≫= Py.int = Some pos' ->
  c <> 0%Z ->
  w_postout <$> write_line salt line (Writer (rest ++ [presalt]) after pos)
  = Some (rest ++ mark presalt
          ++ ["  [" +:+ Py.str_of_int c +:+ "]" +:+ Py.nl]
          ++ default [] (after !! pos))
  /\ test shell_d "CRAM0.0" "/w/d.t" scenario_d
     = Some (scenario_d, scenario_d, [])
  /\ test shell_7 "CRAM0.0" "/w/e.t" scenario_7
     = Some (scenario_7, scenario_7 ++ [ln "  [7]"],
             [ln ("--- /w/e.t" +:+ String "009" "");
              ln ("+++ /w/e.t.err" +:+ String "009" "");
              ln "@@ -1,2 +1,3 @@"; ln "   $ sh -c 'echo out; exit 7'";
              ln "   out"; ln "+  [7]"]).
Proof.
  intros Hs Hret Hpos Hc. split; [|split].
  - unfold write_line. rewrite Hs.
    rewrite (on_sentinel_spec _ _ _ _ _ _ _ Hret Hpos). simpl.
    now rewrite bool_decide_eq_true_2 by exact Hc.
  - vm_compute. reflexivity.
  - vm_compute. reflexivity.
Qed.

Lemma exit_status_line_witness :
  w_postout <$> write_line "CRAM0.0" (ln "CRAM0.0 2 7")
                  (Writer ([ln "  out"] ++ [ln "  "]) ∅ 0)
  = Some ([ln "  out"] ++ mark (ln "  ")
          ++ ["  [" +:+ Py.str_of_int 7 +:+ "]" +:+ Py.nl]
          ++ default [] ((∅ : gmap Z (list string)) !! 0%Z))
  /\ test (H := reference_engine) shell_d "CRAM0.0" "/w/d.t" scenario_d
     = Some (scenario_d, scenario_d, [])
  /\ test (H := reference_engine) shell_7 "CRAM0.0" "/w/e.t" scenario_7
     = Some (scenario_7, scenario_7 ++ [ln "  [7]"],
             [ln ("--- /w/e.t" +:+ String "009" "");
              ln ("+++ /w/e.t.err" +:+ String "009" "");
              ln "@@ -1,2 +1,3 @@"; ln "   $ sh -c 'echo out; exit 7'";
              ln "   out"; ln "+  [7]"]).
Proof.
  apply (exit_status_line (H := reference_engine) "CRAM0.0" (ln "CRAM0.0 2 7")
           [ln "  out"] (ln "  ") ∅ 0 7 2); try reflexivity.
  discriminate.
Defined.

(** ** [run] *)

Section RunFacts.
Context `{ReEngine}.
Variable w : os.
Variable o : options.

Lemma execs_app (es1 es2 : list event) :
  execs (es1 ++ es2) = execs es1 ++ execs es2.
Proof. apply omap_app. Qed.

Lemma execs_test (path abspath : string) :
  execs (before_test o path ++ [Exec path abspath] ++ after_test w o path)
  = [(path, abspath)].
Proof.
  unfold before_test, after_test.
  destruct (has_basetmp o), (keeptmp o); reflexivity.
Qed.

(** [report] keeps [seen] and [skipped], executes nothing, and counts a
    failure exactly when there is a diff. *)
Lemma report_spec (path abspath : string) (postout diff : list string)
    (st : run_state) :
  seen (report w o path abspath postout diff st) = seen st
  /\ skipped (report w o path abspath postout diff st) = skipped st
  /\ execs (events (report w o path abspath postout diff st))
     = execs (events st)
  /\ failed (report w o path abspath postout diff st)
     = (if diff is [] then failed st else S (failed st)).
Proof.
  unfold report, yield, emit.
  destruct diff, (verbose o), (quiet o), (interactive o),
    (String.eqb (_prompt w (answer o)) "y");
    simpl; rewrite ?execs_app; simpl; rewrite ?app_nil_r; auto.
Qed.

(** A path that was met before changes nothing. *)
Lemma run_path_seen (path : string) (st : run_state) :
  path ∈ seen st -> run_path w o path st = (st, true).
Proof. intros Hin. unfold run_path. now rewrite bool_decide_eq_true_2. Qed.

(** An empty file is skipped: one more in [skipped], the status yielded,
    nothing executed. *)
Lemma run_path_empty (path : string) (st : run_state) :
  path ∉ seen st -> zero_size w path ->
  run_path w o path st
  = (RunState ({[path]} ∪ seen st) (S (skipped st)) (failed st)
       (out st ++ (if verbose o then [path +:+ ": "; "empty" +:+ Py.nl]
                   else ["s"]))
       (events st), true).
Proof.
  intros Hnew Hz. unfold run_path. rewrite bool_decide_eq_false_2 by exact Hnew.
  unfold zero_size in Hz.
  destruct (verbose o); simpl; rewrite Hz; unfold yield; simpl;
    rewrite <- ?app_assoc; reflexivity.
Qed.

(** What one round does to the variables of [run], in every case. *)
Lemma run_path_new (path : string) (st : run_state) :
  path ∉ seen st ->
  seen (run_path w o path st).1 = {[path]} ∪ seen st
  /\ skipped (run_path w o path st).1
     = (if decide (zero_size w path) then S (skipped st) else skipped st)
  /\ failed (run_path w o path st).1
     = (if decide (fails w path) then S (failed st) else failed st)
  /\ (execs (events (run_path w o path st).1) = execs (events st)
      \/ (~ zero_size w path
          /\ execs (events (run_path w o path st).1)
             = execs (events st) ++ [(path, Path.join (getcwd w) path)])).
Proof.
  intros Hnew. unfold run_path. rewrite bool_decide_eq_false_2 by exact Hnew.
  cbv zeta.
  set (abspath := Path.join (getcwd w) path).
  set (base := RunState ({[path]} ∪ seen st) (skipped st) (failed st) (out st)
                 (events st)).
  set (s0 := if verbose o then yield [path +:+ ": "] base else base).
  assert (Hs0 : seen s0 = {[path]} ∪ seen st /\ skipped s0 = skipped st
                /\ failed s0 = failed st /\ events s0 = events st).
  { unfold s0, base, yield. destruct (verbose o); simpl; auto. }
  destruct Hs0 as (Es & Ek & Ef & Ee). clearbody s0.
  destruct (decide (zero_size w path)) as [Hz|Hz],
    (decide (fails w path)) as [Hf|Hf];
    unfold zero_size, fails in Hz, Hf; fold abspath in Hz, Hf;
    destruct (st_size w abspath) as [[|sz]|] eqn:Esz; try done;
    try (destruct (verbose o); simpl; rewrite ?Es, ?Ek, ?Ef, ?Ee; now auto).
  - destruct (test_at w abspath) as [[[refout postout] [|d diff]]|]; try done.
    cbn [fst].
    destruct (report_spec path abspath postout (d :: diff)
      (emit (before_test o path ++ [Exec path abspath] ++ after_test w o path) s0))
      as (Hs & Hk & He & Hfl).
    rewrite Hs, Hk, He, Hfl. unfold emit; cbn [events seen skipped failed out].
    rewrite execs_app, execs_test, Ee, ?Es, ?Ek, ?Ef.
    repeat split; auto. right. split; [|reflexivity].
    unfold zero_size. fold abspath. rewrite Esz. discriminate.
  - destruct (test_at w abspath) as [[[refout postout] [|d diff]]|]; try done.
    + cbn [fst].
      destruct (report_spec path abspath postout []
        (emit (before_test o path ++ [Exec path abspath] ++ after_test w o path) s0))
        as (Hs & Hk & He & Hfl).
      rewrite Hs, Hk, He, Hfl. unfold emit; cbn [events seen skipped failed out].
      rewrite execs_app, execs_test, Ee, ?Es, ?Ek, ?Ef.
    repeat split; auto. right. split; [|reflexivity].
    unfold zero_size. fold abspath. rewrite Esz. discriminate.
    + cbn [fst]. unfold emit; cbn [events seen skipped failed out].
      rewrite execs_app, execs_test, Ee, ?Es, ?Ek, ?Ef.
    repeat split; auto. right. split; [|reflexivity].
    unfold zero_size. fold abspath. rewrite Esz. discriminate.
Qed.

End RunFacts.

Lemma size_filter_add (P : string -> Prop) `{!forall x, Decision (P x)}
    (x : string) (X : gset string) :
  x ∉ X ->
  size (filter P ({[x]} ∪ X))
  = if decide (P x) then S (size (filter P X)) else size (filter P X).
Proof.
  intros Hx. rewrite filter_union_L, filter_singleton_L.
  destruct (decide (P x)) as [HP|HP].
  - rewrite size_union; [now rewrite size_singleton|].
    intros y Hy1 Hy2. apply elem_of_singleton in Hy1 as ->.
    apply elem_of_filter in Hy2 as [_ Hy2]. contradiction.
  - now rewrite (left_id_L ∅ (∪)).
  - apply _.
  - apply _.
Qed.

Section RunInvariant.
Context `{ReEngine}.
Variable w : os.
Variable o : options.

Lemma run_inv_init : run_inv w (RunState ∅ 0 0 [] []).
Proof.
  unfold run_inv. simpl. rewrite !filter_empty_L, size_empty.
  split; [reflexivity|]. split; [reflexivity|]. split; [apply NoDup_nil_2|].
  { intros p ap Hp. now apply elem_of_nil in Hp. }
  all: apply _.
Qed.

Lemma run_path_inv (path : string) (st : run_state) :
  run_inv w st ->
  run_inv w (run_path w o path st).1
  /\ seen (run_path w o path st).1 = {[path]} ∪ seen st.
Proof.
  intros (Hk & Hf & Hnd & Hex).
  destruct (decide (path ∈ seen st)) as [Hin|Hnew].
  - rewrite (run_path_seen w o path st Hin). simpl.
    split; [unfold run_inv; auto|]. set_solver.
  - destruct (run_path_new w o path st Hnew) as (Es & Ek & Ef & Ee).
    split; [|exact Es]. unfold run_inv. rewrite Es, Ek, Ef.
    rewrite !size_filter_add by exact Hnew. rewrite <- Hk, <- Hf.
    split; [reflexivity|]. split; [reflexivity|].
    destruct Ee as [Ee | [Hz Ee]]; rewrite Ee.
    + split; [exact Hnd|]. intros p ap Hp. destruct (Hex p ap Hp) as (? & ? & ?).
      split; [set_solver|done].
    + rewrite fmap_app. split.
      * apply NoDup_app. split; [exact Hnd|]. split; [|apply NoDup_singleton].
        intros p Hp Hp'. simpl in Hp'. apply list_elem_of_singleton in Hp'.
        subst p. apply list_elem_of_fmap in Hp as ([p ap] & Hpp & Hp).
        simpl in Hpp. subst p. apply Hnew. now apply (Hex path ap).
      * intros p ap [Hp|Hp]%elem_of_app.
        -- destruct (Hex p ap Hp) as (? & ? & ?). split; [set_solver|done].
        -- apply list_elem_of_singleton in Hp as [= -> ->].
           split; [set_solver|done].
Qed.

Lemma run_paths_inv (tests : list string) :
  forall st,
    run_inv w st ->
    run_inv w (run_paths w o tests st).1
    /\ ((run_paths w o tests st).2 = true ->
        seen (run_paths w o tests st).1 = list_to_set tests ∪ seen st).
Proof.
  induction tests as [|path tests IH]; intros st Hinv; simpl.
  - split; [exact Hinv|]. intros _. set_solver.
  - destruct (run_path_inv path st Hinv) as [Hinv' Hseen].
    destruct (run_path w o path st) as [st' ok]. simpl in Hinv', Hseen.
    destruct ok; [|now split].
    destruct (IH st' Hinv') as [Hinv'' Hseen'']. split; [exact Hinv''|].
    intros Hok. rewrite (Hseen'' Hok), Hseen. set_solver.
Qed.

(** The whole run: the invariant holds of the final state; when the
    generator runs to its end, the paths met are the tests found, and the
    last string yielded is the summary. *)
Lemma run_spec (paths : list string) :
  run_inv w (run w o paths).1
  /\ ((run w o paths).2 = true ->
      seen (run w o paths).1 = list_to_set (findtests w paths)
      /\ last (out (run w o paths).1) = Some (summary (run w o paths).1)).
Proof.
  unfold run.
  destruct (run_paths_inv (findtests w paths) (RunState ∅ 0 0 [] []) run_inv_init)
    as [Hinv Hseen].
  destruct (run_paths w o (findtests w paths) (RunState ∅ 0 0 [] []))
    as [st ok]. simpl in Hinv, Hseen.
  destruct ok; simpl; [|now split]. split; [exact Hinv|]. intros _.
  split.
  - rewrite Hseen by reflexivity. set_solver.
  - rewrite app_assoc. apply last_snoc.
Qed.

End RunInvariant.

Lemma size_list_to_set_dups (l : list string) :
  size (list_to_set l : gset string) = length (remove_dups l).
Proof.
  rewrite <- (size_list_to_set (C := gset string) (remove_dups l))
    by apply NoDup_remove_dups.
  f_equal. apply set_eq. intros x.
  rewrite !elem_of_list_to_set. now rewrite elem_of_remove_dups.
Qed.

(** C8: a test file of zero bytes is skipped.  Its round yields the status
    ([s], or the name and [empty] when verbose), counts it in [skipped] and
    executes nothing; no run starts a shell for a file of zero bytes, and
    such a file is never a failure; when the run ends, [skipped] is the
    number of the empty files among the tests found. *)
Theorem empty_file_is_skipped `{ReEngine}
    (w : os) (o : options) (paths : list string) (path : string) :
  zero_size w path ->
  (forall st, path ∉ seen st ->
     run_path w o path st
     = (RunState ({[path]} ∪ seen st) (S (skipped st)) (failed st)
          (out st ++ (if verbose o then [path +:+ ": "; "empty" +:+ Py.nl]
                      else ["s"]))
          (events st), true))
  /\ (forall p ap, (p, ap) ∈ execs (events (run w o paths).1) ->
        st_size w ap <> Some 0%N)
  /\ ~ fails w path
  /\ ((run w o paths).2 = true ->
      skipped (run w o paths).1
      = size (filter (zero_size w)
                (list_to_set (findtests w paths) : gset string))
      /\ failed (run w o paths).1
         = size (filter (fails w)
                   (list_to_set (findtests w paths) : gset string))).
Proof.
  intros Hz. split; [|split; [|split]].
  - intros st Hnew. now apply run_path_empty.
  - destruct (run_spec w o paths) as [(_ & _ & _ & Hex) _].
    intros p ap Hp. destruct (Hex p ap Hp) as (_ & -> & Hnz). exact Hnz.
  - unfold fails. unfold zero_size in Hz. now rewrite Hz.
  - destruct (run_spec w o paths) as [(Hk & Hf & _) Hok].
    intros Ok. destruct (Hok Ok) as [Hseen _].
    now rewrite Hk, Hf, Hseen.
Qed.

Lemma empty_file_is_skipped_witness :
  (forall st, "t/a.t" ∉ seen st ->
     run_path ex_world ex_options "t/a.t" st
     = (RunState ({["t/a.t"]} ∪ seen st) (S (skipped st)) (failed st)
          (out st ++ (if verbose ex_options
                      then ["t/a.t" +:+ ": "; "empty" +:+ Py.nl]
                      else ["s"]))
          (events st), true))
  /\ (forall p ap,
        (p, ap) ∈ execs (events (run (H := reference_engine) ex_world
                                    ex_options ["t"; "t/a.t"]).1) ->
        st_size ex_world ap <> Some 0%N)
  /\ ~ fails (H := reference_engine) ex_world "t/a.t"
  /\ ((run (H := reference_engine) ex_world ex_options ["t"; "t/a.t"]).2 = true ->
      skipped (run (H := reference_engine) ex_world ex_options ["t"; "t/a.t"]).1
      = size (filter (zero_size ex_world)
                (list_to_set (findtests ex_world ["t"; "t/a.t"]) : gset string))
      /\ failed (run (H := reference_engine) ex_world ex_options ["t"; "t/a.t"]).1
         = size (filter (fails (H := reference_engine) ex_world)
                   (list_to_set (findtests ex_world ["t"; "t/a.t"])
                    : gset string))).
Proof.
  apply (empty_file_is_skipped (H := reference_engine) ex_world ex_options
           ["t"; "t/a.t"] "t/a.t").
  reflexivity.
Defined.

(** C10: a path is executed at most once in a run, a path met again
    changes nothing, and when the run ends its last line is the summary,
    whose first number is the number of distinct paths found; the empty
    files are among them. *)
Theorem each_path_runs_once `{ReEngine}
    (w : os) (o : options) (paths : list string) :
  NoDup (execs (events (run w o paths).1)).*1
  /\ (forall path st, path ∈ seen st -> run_path w o path st = (st, true))
  /\ ((run w o paths).2 = true ->
      last (out (run w o paths).1)
      = Some ("# Ran " +:+ pretty (length (remove_dups (findtests w paths)))
              +:+ " tests, " +:+ pretty (skipped (run w o paths).1)
              +:+ " skipped, " +:+ pretty (failed (run w o paths).1)
              +:+ " failed." +:+ Py.nl)
      /\ skipped (run w o paths).1 <= length (remove_dups (findtests w paths))).
Proof.
  destruct (run_spec w o paths) as [(Hk & Hf & Hnd & _) Hok].
  split; [exact Hnd|]. split; [intros path st; apply run_path_seen|].
  intros Ok. destruct (Hok Ok) as [Hseen Hlast].
  rewrite <- size_list_to_set_dups, <- Hseen. split.
  - rewrite Hlast. reflexivity.
  - rewrite Hk. apply subseteq_size. intros x Hx.
    now apply elem_of_filter in Hx as [_ Hx].
Qed.

Lemma each_path_runs_once_witness :
  NoDup (execs (events (run (H := reference_engine) ex_world ex_options
                          ["t"; "t/b.t"; "./t/b.t"]).1)).*1
  /\ out (run (H := reference_engine) ex_world ex_options
            ["t"; "t/b.t"; "./t/b.t"]).1
     = ["s"; "."; "s"; Py.nl; ln "# Ran 3 tests, 2 skipped, 0 failed."].
Proof.
  split.
  - apply (each_path_runs_once (H := reference_engine)).
  - vm_compute. reflexivity.
Defined.

(** C9, on the tree [ex_tree]: [h.t], in the hidden directory itself, is
    left out, and [sub/x.t], below the hidden directory, is yielded. *)
Example findtests_below_hidden_directory :
  findtests ex_world ["t"] = ["t/a.t"; "t/b.t"; "t/.hid/sub/x.t"].
Proof. vm_compute. reflexivity. Qed.

(** * Further properties *)

(** ** Glob patterns *)

Section GlobFacts.
Context `{ReEngine}.

Lemma parse_go_glob (el : string) :
  forall res acc,
    glob_res el = Some res ->
    Re.parse_go acc (Py.chars res) = Re.Ok (rev acc ++ glob_items el).
Proof.
  remember (String.length el) as n eqn:Hn. revert el Hn.
  induction n as [n IH] using lt_wf_ind. intros el -> res acc Hres.
  assert (IH' : forall el' res' acc', String.length el' < String.length el ->
            glob_res el' = Some res' ->
            Re.parse_go acc' (Py.chars res')
            = Re.Ok (rev acc' ++ glob_items el')).
  { intros el' res' acc' Hlt. now apply (IH (String.length el')). }
  clear IH. destruct el as [|c rest]; simpl in Hres.
  - injection Hres as <-. simpl. now rewrite app_nil_r.
  - assert (Hlit : forall r, glob_res rest = Some r ->
              Re.parse_go acc (Py.chars (Re.escape c +:+ r))
              = Re.Ok (rev acc ++ Re.Once (Re.Lit c) :: glob_items rest)).
    { intros r Hr. rewrite chars_app, parse_go_escape.
      rewrite (IH' rest r) by (simpl; lia || exact Hr). simpl.
      now rewrite <- app_assoc. }
    simpl. destruct (Ascii.eqb c "\") eqn:Ec.
    + destruct rest as [|d rest']; [discriminate|].
      unfold glob_special.
      destruct (Ascii.eqb d "*" || Ascii.eqb d "?" || Ascii.eqb d "\") eqn:Ed.
      * destruct (glob_res rest') as [r|] eqn:Hr; [|discriminate].
        injection Hres as <-. apply Ascii.eqb_eq in Ec as ->.
        assert (Hd : Re.is_alnum d = false).
        { apply orb_true_iff in Ed as [[Ed|Ed]%orb_true_iff|Ed];
            apply Ascii.eqb_eq in Ed as ->; reflexivity. }
        rewrite chars_app.
        change (Py.chars (String "\" (String d ""))) with ["\"%char; d].
        cbn -[Re.is_alnum]. rewrite Hd.
        rewrite (IH' rest' r) by (simpl; lia || exact Hr). simpl.
        now rewrite <- app_assoc.
      * destruct (glob_res (String d rest')) as [r|] eqn:Hr; [|discriminate].
        injection Hres as <-. now apply Hlit.
    + destruct (Ascii.eqb c "*") eqn:Es.
      * destruct (glob_res rest) as [r|] eqn:Hr; [|discriminate].
        injection Hres as <-. rewrite chars_app.
        change (Py.chars ".*") with ["."%char; "*"%char]. cbn.
        rewrite (IH' rest r) by (simpl; lia || exact Hr). simpl.
        now rewrite <- app_assoc.
      * destruct (Ascii.eqb c "?") eqn:Eq.
        -- destruct (glob_res rest) as [r|] eqn:Hr; [|discriminate].
           injection Hres as <-. rewrite chars_app.
           change (Py.chars ".") with ["."%char]. cbn.
           rewrite (IH' rest r) by (simpl; lia || exact Hr). simpl.
           now rewrite <- app_assoc.
        -- destruct (glob_res rest) as [r|] eqn:Hr; [|discriminate].
           injection Hres as <-. now apply Hlit.
Qed.

Lemma glob_items_line (g : string) :
  glob_items (g +:+ Py.nl) = glob_items g ++ [Re.Once (Re.Lit Re.newline)].
Proof.
  remember (String.length g) as n eqn:Hn. revert g Hn.
  induction n as [n IH] using lt_wf_ind. intros g ->.
  destruct g as [|c rest]; [reflexivity|].
  change (String c rest +:+ Py.nl) with (String c (rest +:+ Py.nl)).
  assert (IHr : glob_items (rest +:+ Py.nl)
                = glob_items rest ++ [Re.Once (Re.Lit Re.newline)])
    by (apply (IH (String.length rest)); [simpl; lia | reflexivity]).
  simpl. destruct (Ascii.eqb c "\").
  - destruct rest as [|d rest'].
    + reflexivity.
    + change (String d rest' +:+ Py.nl) with (String d (rest' +:+ Py.nl)) in *.
      cbv iota. destruct (glob_special d).
      * rewrite (IH (String.length rest')) by (simpl; lia || reflexivity).
        reflexivity.
      * now rewrite IHr.
  - rewrite IHr. destruct (Ascii.eqb c "*"); [reflexivity|].
    now destruct (Ascii.eqb c "?").
Qed.

End GlobFacts.

(** X1: the regular expression that [_glob] builds is always one that [re]
    accepts, and [_glob] succeeds exactly when the line starts with a word
    of the glob pattern. *)
Theorem glob_matches_its_language `{ReEngine} (el res l : string) :
  glob_res el = Some res ->
  Re.parse res = Re.Ok (glob_items el)
  /\ (_glob el l = Some true
      <-> exists w r, Py.chars l = w ++ r /\ Re.lang (glob_items el) w).
Proof.
  intros Hres.
  assert (Hp : Re.parse res = Re.Ok (glob_items el))
    by exact (parse_go_glob el res [] Hres).
  split; [exact Hp|].
  unfold _glob. rewrite Hres. simpl. rewrite (_match_ok _ _ _ Hp).
  rewrite <- match_here_spec. split; [now intros [= ->] | now intros ->].
Qed.

Lemma glob_matches_its_language_witness :
  Re.parse "\*\ fo.b.*" = Re.Ok (glob_items "\* fo?b*")
  /\ (_glob (H := reference_engine) "\* fo?b*" "* foobar" = Some true
      <-> exists w r, Py.chars "* foobar" = w ++ r
                      /\ Re.lang (glob_items "\* fo?b*") w).
Proof.
  apply (glob_matches_its_language (H := reference_engine)). reflexivity.
Defined.

(** X2: a [(glob)] line is never rejected, and it matches an actual line
    that has its one line feed at its end exactly when the pattern spells
    the whole line. *)
Theorem glob_tag_matches_whole_line `{ReEngine} (g body : string) :
  Re.newline ∉ Py.chars body ->
  tagged_match (g +:+ " (glob)" +:+ Py.nl) (body +:+ Py.nl) = Some true
  <-> Re.lang (glob_items g) (Py.chars body).
Proof.
  intros Hnl. rewrite tagged_match_glob.
  destruct (glob_res_line g) as [res Hres].
  assert (Hp : Re.parse res = Re.Ok (glob_items (g +:+ Py.nl)))
    by exact (parse_go_glob (g +:+ Py.nl) res [] Hres).
  unfold _glob. rewrite Hres. simpl. rewrite (_match_ok _ _ _ Hp).
  rewrite glob_items_line, chars_app. change (Py.chars Py.nl) with [Re.newline].
  rewrite <- (match_here_line (glob_items g) (Py.chars body) Hnl).
  split; [now intros [= ->] | now intros ->].
Qed.

Lemma glob_tag_matches_whole_line_witness :
  tagged_match (H := reference_engine) ("fo?b*" +:+ " (glob)" +:+ Py.nl)
    ("foobar" +:+ Py.nl) = Some true
  <-> Re.lang (glob_items "fo?b*") (Py.chars "foobar").
Proof.
  apply (glob_tag_matches_whole_line (H := reference_engine)).
  apply (bool_decide_unpack _). vm_compute. exact I.
Defined.

(** ** Expected lines without a tag *)

Section Untagged.
Context `{ReEngine}.

Lemma tagged_match_untagged (el line : string) :
  tagged el = false -> tagged_match el line = Some false.
Proof.
  unfold tagged, tagged_match. intros [-> ->]%orb_false_iff. reflexivity.
Qed.

Lemma substitute_untagged (alo : nat) (els : list string) :
  Forall (fun el => tagged el = false) els ->
  forall n lines a ms, substitute alo n els lines a ms = Some (a, ms).
Proof.
  induction 1 as [|el els Hel _ IH]; intros n lines a ms; [reflexivity|].
  destruct lines as [|line lines]; [reflexivity|]. simpl.
  rewrite (tagged_match_untagged el line Hel). simpl. apply IH.
Qed.

Lemma find_longest_match_untagged (a b : list string) (alo ahi blo bhi : nat) :
  Forall (fun el => tagged el = false) a ->
  find_longest_match a b alo ahi blo bhi
  = (fun ret => (a, ret)) <$> Difflib.find_longest_match a b alo ahi blo bhi.
Proof.
  intros Ha. unfold find_longest_match, Difflib.slice.
  rewrite substitute_untagged by (apply Forall_take, Forall_drop, Ha).
  simpl. now destruct (Difflib.find_longest_match a b alo ahi blo bhi).
Qed.

End Untagged.

(** The loop of [get_matching_blocks] with two methods that do the same on
    [a] and [b] and leave [a] as it is. *)
Lemma matching_loop_ext (flm1 flm2 : Difflib.method) (base : list string ->
      list string -> nat -> nat -> nat -> nat -> option Difflib.block)
    (a b : list string) :
  (forall alo ahi blo bhi,
     flm1 a b alo ahi blo bhi = (fun r => (a, r)) <$> base a b alo ahi blo bhi) ->
  (forall alo ahi blo bhi,
     flm2 a b alo ahi blo bhi = (fun r => (a, r)) <$> base a b alo ahi blo bhi) ->
  forall fuel queue blocks,
    Difflib.matching_loop flm1 fuel a b queue blocks
    = Difflib.matching_loop flm2 fuel a b queue blocks.
Proof.
  intros H1 H2. induction fuel as [|fuel IH]; intros queue blocks;
    destruct queue as [|[[[alo ahi] blo] bhi] queue]; try reflexivity.
  simpl. rewrite H1, H2.
  destruct (base a b alo ahi blo bhi) as [[[i j] k]|]; [|reflexivity]. simpl.
  destruct (0 <? k)%nat; apply IH.
Qed.

(** X3: when no expected line carries a tag, [find_longest_match] is the
    method of the base class and leaves [self.a] untouched, and the diff
    does not depend on what [re] does. *)
Theorem untagged_lines_are_compared_literally
    (E1 E2 : ReEngine) (a b : list string) (fromfile tofile : string) :
  Forall (fun el => tagged el = false) a ->
  (forall alo ahi blo bhi,
     find_longest_match (H := E1) a b alo ahi blo bhi
     = (fun ret => (a, ret)) <$> Difflib.find_longest_match a b alo ahi blo bhi)
  /\ unified_diff (H := E1) a b fromfile tofile
     = unified_diff (H := E2) a b fromfile tofile.
Proof.
  intros Ha. split.
  - intros. now apply find_longest_match_untagged.
  - unfold unified_diff, Difflib.get_grouped_opcodes, Difflib.get_opcodes,
      Difflib.get_matching_blocks.
    rewrite (matching_loop_ext (find_longest_match (H := E1))
               (find_longest_match (H := E2)) Difflib.find_longest_match a b);
      [reflexivity|..]; intros; now apply find_longest_match_untagged.
Qed.

Lemma untagged_lines_are_compared_literally_witness :
  (forall alo ahi blo bhi,
     find_longest_match (H := reference_engine) [ln "  $ echo hi"; ln "  bye"]
       [ln "  $ echo hi"; ln "  hi"] alo ahi blo bhi
     = (fun ret => ([ln "  $ echo hi"; ln "  bye"], ret))
         <$> Difflib.find_longest_match [ln "  $ echo hi"; ln "  bye"]
               [ln "  $ echo hi"; ln "  hi"] alo ahi blo bhi)
  /\ unified_diff (H := reference_engine) [ln "  $ echo hi"; ln "  bye"]
       [ln "  $ echo hi"; ln "  hi"] "t" "t.err"
     = unified_diff (H := reference_engine) [ln "  $ echo hi"; ln "  bye"]
         [ln "  $ echo hi"; ln "  hi"] "t" "t.err".
Proof.
  apply (untagged_lines_are_compared_literally reference_engine
           reference_engine).
  repeat constructor.
Defined.

(** ** [findtests] *)

Lemma StronglySorted_filter_le (P : string -> Prop) `{!forall x, Decision (P x)}
    (l : list string) :
  StronglySorted String.le l -> StronglySorted String.le (filter P l).
Proof.
  induction 1 as [|x l Hs IH Hx]; [constructor|].
  rewrite filter_cons. destruct (decide (P x)); [|exact IH].
  constructor; [exact IH|].
  apply Forall_forall. intros y [_ Hy]%list_elem_of_filter.
  rewrite Forall_forall in Hx. now apply Hx.
Qed.

(** X4: from a directory that [os.walk] reports and whose name does not
    start with a dot, [findtests] yields the files whose names pass
    [istest], each as often as it is listed, in the order of their names
    (character by character, so [t10.t] comes before [t2.t]). *)
Theorem walk_tests_sorted (root : string) (dirs files : list string) :
  Py.startswith (Path.basename root) "." = false ->
  exists names,
    walk_tests (root, dirs, files)
    = (fun f => Path.normpath (Path.join root f)) <$> names
    /\ StronglySorted String.le names
    /\ names ≡ₚ filter (fun f => istest f = true) files.
Proof.
  intros Hroot. unfold walk_tests. rewrite Hroot.
  exists (filter (fun f => istest f = true) (merge_sort String.le files)).
  split; [reflexivity|]. split.
  - apply StronglySorted_filter_le, StronglySorted_merge_sort; apply _.
  - now rewrite merge_sort_Permutation.
Qed.

Lemma walk_tests_sorted_witness :
  (exists names,
     walk_tests ("t", [], ["t2.t"; "x.txt"; "t10.t"; ".h.t"])
     = (fun f => Path.normpath (Path.join "t" f)) <$> names
     /\ StronglySorted String.le names
     /\ names ≡ₚ filter (fun f => istest f = true)
                   ["t2.t"; "x.txt"; "t10.t"; ".h.t"])
  /\ walk_tests ("t", [], ["t2.t"; "x.txt"; "t10.t"; ".h.t"])
     = ["t/t10.t"; "t/t2.t"].
Proof.
  split.
  - apply walk_tests_sorted. reflexivity.
  - vm_compute. reflexivity.
Defined.

(** X5: [findtests] on the path [.] leaves out the tests that lie directly
    in the current directory: the name of the root that [os.walk] reports
    first is [.], which starts with a dot. *)
Theorem findtests_dot_skips_top_level
    (w : os) (dirs files : list string)
    (below : list (string * list string * list string)) :
  isdir w "." = true ->
  walk w "." = (".", dirs, files) :: below ->
  findtests w ["."] = below ≫= walk_tests.
Proof.
  intros Hd Hw. unfold findtests. simpl. rewrite Hd, Hw. simpl.
  now rewrite app_nil_r.
Qed.

Lemma findtests_dot_skips_top_level_witness :
  findtests ex_world_top ["."] = tail (walk ex_world_top ".") ≫= walk_tests
  /\ findtests ex_world_top ["."] = ["t/a.t"; "t/b.t"; "t/.hid/sub/x.t"]
  /\ findtests ex_world_top ["top.t"] = ["top.t"].
Proof.
  split; [|split].
  - apply (findtests_dot_skips_top_level ex_world_top
             ["t"] ["top.t"; "t2.t"; "t10.t"]); reflexivity.
  - vm_compute. reflexivity.
  - vm_compute. reflexivity.
Defined.

(** ** More on [run] *)

Section Rounds.
Context `{ReEngine}.
Variable w : os.
Variable o : options.

Lemma report_effects (path abspath : string) (postout diff : list string)
    (st : run_state) :
  events (report w o path abspath postout diff st)
  = events st ++ report_events w o abspath postout diff
  /\ out (report w o path abspath postout diff st)
     = out st
       ++ match diff with
          | [] => if verbose o then ["passed" +:+ Py.nl] else ["."]
          | _ :: _ =>
              (if verbose o then ["failed" +:+ Py.nl]
               else "!" :: if quiet o then [] else [Py.nl])
              ++ (if quiet o then []
                  else diff
                       ++ if interactive o
                             && String.eqb (_prompt w (answer o)) "y"
                             && verbose o
                          then [path +:+ ": merged output" +:+ Py.nl] else [])
          end.
Proof.
  unfold report, report_events, yield, emit.
  destruct diff, (verbose o), (quiet o), (interactive o),
    (String.eqb (_prompt w (answer o)) "y");
    simpl; rewrite <- ?app_assoc, ?app_nil_r; simpl;
    rewrite <- ?app_assoc, ?app_nil_r; auto.
Qed.

(** The round for a path not met before, in closed form. *)
Lemma run_path_effects (path : string) (st : run_state) :
  path ∉ seen st ->
  events (run_path w o path st).1 = events st ++ round_events w o path
  /\ ((run_path w o path st).2 = true ->
      out (run_path w o path st).1 = out st ++ round_output w o path)
  /\ ((run_path w o path st).2 = true <->
      match st_size w (Path.join (getcwd w) path) with
      | None => False
      | Some 0%N => True
      | Some _ => is_Some (test_at w (Path.join (getcwd w) path))
      end).
Proof.
  intros Hnew. unfold run_path, round_events, round_output.
  rewrite bool_decide_eq_false_2 by exact Hnew. cbv zeta.
  set (abspath := Path.join (getcwd w) path).
  set (base := RunState ({[path]} ∪ seen st) (skipped st) (failed st) (out st)
                 (events st)).
  set (s0 := if verbose o then yield [path +:+ ": "] base else base).
  assert (Hs0 : events s0 = events st
                /\ out s0 = out st ++ (if verbose o then [path +:+ ": "] else [])).
  { unfold s0, base, yield. destruct (verbose o); simpl;
      now rewrite ?app_nil_r. }
  destruct Hs0 as (Ee & Eo). clearbody s0.
  destruct (st_size w abspath) as [[|sz]|].
  - cbn [fst snd]. rewrite app_nil_r. split; [|split]; [| |tauto].
    + destruct (verbose o); simpl; exact Ee.
    + intros _. destruct (verbose o); unfold yield; simpl; rewrite Eo;
        now rewrite <- app_assoc.
  - destruct (test_at w abspath) as [[[refout postout] diff]|].
    + cbn [fst snd].
      destruct (report_effects path abspath postout diff
        (emit (before_test o path ++ [Exec path abspath] ++ after_test w o path)
           s0)) as [He Ho].
      rewrite He, Ho. unfold emit. cbn [events out]. rewrite Ee, Eo.
      split; [|split].
      * now rewrite <- ?app_assoc.
      * intros _. rewrite <- ?app_assoc. now destruct diff.
      * split; [now eexists | reflexivity].
    + cbn [fst snd]. unfold emit. cbn [events]. rewrite Ee.
      split; [|split].
      * now rewrite ?app_nil_r, <- ?app_assoc.
      * discriminate.
      * split; [discriminate | intros [? [=]]].
  - cbn [fst snd]. rewrite app_nil_r. split; [exact Ee|].
    split; [discriminate | split; [discriminate | tauto]].
Qed.

(** Induction over the rounds of [run]. *)
Lemma run_paths_ind (P : run_state -> Prop) (tests : list string) :
  (forall path st, P st -> P (run_path w o path st).1) ->
  forall st, P st -> P (run_paths w o tests st).1.
Proof.
  intros Hstep. induction tests as [|path tests IH]; intros st HP; [exact HP|].
  simpl. specialize (Hstep path st HP).
  destruct (run_path w o path st) as [st' ok]. destruct ok; [|exact Hstep].
  now apply IH.
Qed.

Lemma run_ind (P : run_state -> Prop) (paths : list string) :
  P (RunState ∅ 0 0 [] []) ->
  (forall path st, P st -> P (run_path w o path st).1) ->
  (forall ss st, P st -> P (yield ss st)) ->
  P (run w o paths).1.
Proof.
  intros Hinit Hstep Hyield. unfold run.
  pose proof (run_paths_ind P (findtests w paths) Hstep _ Hinit) as HP.
  destruct (run_paths w o (findtests w paths) (RunState ∅ 0 0 [] []))
    as [st ok]. destruct ok; [now apply Hyield | exact HP].
Qed.

(** An invariant of the events: it holds of no events, and of the events
    of one more round. *)
Lemma run_events_ind (P : list event -> Prop) (paths : list string) :
  P [] ->
  (forall path es, P es -> P (es ++ round_events w o path)) ->
  P (events (run w o paths).1).
Proof.
  intros Hnil Hround.
  apply (run_ind (fun st => P (events st))); [exact Hnil | | auto].
  intros path st HP. destruct (decide (path ∈ seen st)) as [Hin|Hnew].
  - now rewrite (run_path_seen w o path st Hin).
  - destruct (run_path_effects path st Hnew) as [-> _]. now apply Hround.
Qed.

End Rounds.

Section Closed.
Context `{ReEngine}.
Variable w : os.
Variable o : options.

Lemma run_path_ok_new (path : string) (st : run_state) :
  path ∉ seen st ->
  seen (run_path w o path st).1 = {[path]} ∪ seen st.
Proof. intros Hnew. now destruct (run_path_new w o path st Hnew). Qed.

(** The loop of [run] in closed form: the rounds made are the first ones
    of the distinct paths, and all of them when no round raises. *)
Lemma run_paths_closed (tests : list string) :
  forall st,
  exists rs,
    rs `prefix_of` distinct tests (seen st)
    /\ events (run_paths w o tests st).1
       = events st ++ (rs ≫= round_events w o)
    /\ seen (run_paths w o tests st).1 = list_to_set rs ∪ seen st
    /\ ((run_paths w o tests st).2 = true ->
        rs = distinct tests (seen st)
        /\ Forall (completes w) rs
        /\ out (run_paths w o tests st).1
           = out st ++ (rs ≫= round_output w o)).
Proof.
  induction tests as [|path tests IH]; intros st.
  - exists []. simpl. rewrite !app_nil_r.
    split; [reflexivity|]. split; [reflexivity|]. split; [set_solver|].
    intros _. now repeat split.
  - cbn [run_paths distinct].
    destruct (decide (path ∈ seen st)) as [Hin|Hnew].
    + rewrite (run_path_seen w o path st Hin).
      rewrite bool_decide_eq_true_2 by exact Hin. apply IH.
    + rewrite bool_decide_eq_false_2 by exact Hnew.
      destruct (run_path_effects w o path st Hnew) as (He & Ho & Hc).
      fold (completes w path) in Hc.
      pose proof (run_path_ok_new path st Hnew) as Hs.
      destruct (run_path w o path st) as [st' ok]. cbn [fst snd] in *.
      destruct ok; cbv iota; cbn [fst snd].
      * destruct (IH st') as (rs & Hpre & He' & Hs' & Hok).
        exists (path :: rs). rewrite Hs in Hpre, Hok.
        split; [now apply prefix_cons|]. split; [|split].
        -- rewrite He', He. cbn [mbind list_bind]. 
           now rewrite <- app_assoc.
        -- rewrite Hs', Hs. set_solver.
        -- intros Ok. destruct (Hok Ok) as (-> & Hall & Ho').
           split; [reflexivity|].
           split; [constructor; [now apply Hc | exact Hall]|].
           rewrite Ho', Ho by reflexivity.
           cbn [mbind list_bind]. now rewrite <- app_assoc.
      * exists [path]. split; [apply prefix_cons, prefix_nil|].
        split; [|split; [|discriminate]].
        -- rewrite He. simpl. now rewrite app_nil_r.
        -- rewrite Hs. set_solver.
Qed.

(** [run] in closed form. *)
Lemma run_closed (paths : list string) :
  exists rs,
    rs `prefix_of` distinct (findtests w paths) ∅
    /\ events (run w o paths).1 = rs ≫= round_events w o
    /\ seen (run w o paths).1 = list_to_set rs
    /\ ((run w o paths).2 = true ->
        rs = distinct (findtests w paths) ∅
        /\ Forall (completes w) rs
        /\ out (run w o paths).1
           = (rs ≫= round_output w o)
             ++ (if verbose o then [] else [Py.nl])
             ++ [summary (run w o paths).1]).
Proof.
  unfold run.
  destruct (run_paths_closed (findtests w paths) (RunState ∅ 0 0 [] []))
    as (rs & Hpre & He & Hs & Hok).
  destruct (run_paths w o (findtests w paths) (RunState ∅ 0 0 [] []))
    as [st ok]. cbn [fst snd seen events out] in *.
  exists rs. split; [exact Hpre|].
  destruct ok; cbn [fst snd]; unfold yield; cbn [seen events out].
  - split; [exact He|]. split; [rewrite Hs; set_solver|]. intros _.
    destruct (Hok eq_refl) as (-> & Hall & ->). now repeat split.
  - split; [exact He|]. split; [rewrite Hs; set_solver|]. discriminate.
Qed.

Lemma distinct_spec (tests : list string) :
  forall met,
    NoDup (distinct tests met)
    /\ (forall p, p ∈ distinct tests met <-> p ∈ tests /\ p ∉ met).
Proof.
  induction tests as [|path tests IH]; intros met; simpl.
  - split; [constructor|]. intros p. rewrite !elem_of_nil. tauto.
  - destruct (decide (path ∈ met)) as [Hin|Hnew].
    + rewrite bool_decide_eq_true_2 by exact Hin.
      destruct (IH met) as [Hnd Hel]. split; [exact Hnd|].
      intros p. rewrite Hel, elem_of_cons. split; [tauto|].
      intros [[->|Hp] Hm]; [contradiction|tauto].
    + rewrite bool_decide_eq_false_2 by exact Hnew.
      destruct (IH ({[path]} ∪ met)) as [Hnd Hel]. split.
      * constructor; [|exact Hnd]. rewrite Hel. set_solver.
      * intros p. rewrite !elem_of_cons, Hel.
        destruct (decide (p = path)) as [->|Hne]; set_solver.
Qed.

End Closed.

Section RoundEvents.
Context `{ReEngine}.
Variable w : os.
Variable o : options.

(** An event of a run is an event of the round of a path it met. *)
Lemma run_events_elem (paths : list string) (e : event) :
  e ∈ events (run w o paths).1
  <-> exists path, path ∈ seen (run w o paths).1 /\ e ∈ round_events w o path.
Proof.
  destruct (run_closed w o paths) as (rs & _ & -> & -> & _).
  rewrite list_elem_of_bind. setoid_rewrite elem_of_list_to_set. naive_solver.
Qed.

Lemma round_write_err (path errpath : string) (lines : list string) :
  WriteErr errpath lines ∈ round_events w o path
  <-> errpath = Path.join (getcwd w) path +:+ ".err"
      /\ fails_with w path lines.
Proof.
  unfold round_events, fails_with, before_test, after_test, report_events.
  destruct (st_size w (Path.join (getcwd w) path)) as [[|sz]|];
    [rewrite elem_of_nil; tauto| |rewrite elem_of_nil; tauto].
  destruct (test_at w (Path.join (getcwd w) path))
    as [[[refout postout] [|d diff]]|];
    destruct (has_basetmp o), (keeptmp o), (quiet o), (interactive o),
      (String.eqb (_prompt w (answer o)) "y");
    rewrite ?elem_of_app, ?elem_of_cons, ?elem_of_nil;
    naive_solver.
Qed.

Lemma round_copy (path src dst : string) :
  Copy src dst ∈ round_events w o path
  <-> interactive o = true /\ quiet o = false
      /\ _prompt w (answer o) = "y"
      /\ dst = Path.join (getcwd w) path /\ src = dst +:+ ".err"
      /\ exists lines, fails_with w path lines.
Proof.
  unfold round_events, fails_with, before_test, after_test, report_events.
  destruct (st_size w (Path.join (getcwd w) path)) as [[|sz]|];
    [rewrite elem_of_nil; naive_solver| |rewrite elem_of_nil; naive_solver].
  destruct (String.eqb_spec (_prompt w (answer o)) "y") as [Ey|Ey];
  destruct (test_at w (Path.join (getcwd w) path))
    as [[[refout postout] [|d diff]]|];
    destruct (has_basetmp o), (keeptmp o), (quiet o), (interactive o);
    rewrite ?elem_of_app, ?elem_of_cons, ?elem_of_nil;
    naive_solver.
Qed.

Lemma round_remove (path p : string) :
  Remove p ∈ round_events w o path
  <-> Copy p (Path.join (getcwd w) path) ∈ round_events w o path.
Proof.
  unfold round_events, fails_with, before_test, after_test, report_events.
  destruct (st_size w (Path.join (getcwd w) path)) as [[|sz]|];
    [rewrite !elem_of_nil; tauto| |rewrite !elem_of_nil; tauto].
  destruct (String.eqb_spec (_prompt w (answer o)) "y") as [Ey|Ey];
  destruct (test_at w (Path.join (getcwd w) path))
    as [[[refout postout] [|d diff]]|];
    destruct (has_basetmp o), (keeptmp o), (quiet o), (interactive o);
    rewrite ?elem_of_app, ?elem_of_cons, ?elem_of_nil;
    naive_solver.
Qed.

Lemma round_prompt (path q : string) :
  Prompt q ∈ round_events w o path ->
  interactive o = true /\ quiet o = false /\ q = "Accept this change?"
  /\ exists lines, fails_with w path lines.
Proof.
  unfold round_events, fails_with, before_test, after_test, report_events.
  destruct (st_size w (Path.join (getcwd w) path)) as [[|sz]|];
    [rewrite elem_of_nil; naive_solver| |rewrite elem_of_nil; naive_solver].
  destruct (String.eqb_spec (_prompt w (answer o)) "y") as [Ey|Ey];
  destruct (test_at w (Path.join (getcwd w) path))
    as [[[refout postout] [|d diff]]|];
    destruct (has_basetmp o), (keeptmp o), (quiet o), (interactive o);
    rewrite ?elem_of_app, ?elem_of_cons, ?elem_of_nil;
    naive_solver.
Qed.

End RoundEvents.

Section RoundFacts.
Context `{ReEngine}.
Variable w : os.
Variable o : options.

Lemma round_output_quiet (path : string) :
  quiet o = true -> verbose o = false -> completes w path ->
  round_output w o path = [mark_of w path].
Proof.
  intros Hq Hv. unfold completes, round_output, mark_of.
  rewrite Hq, Hv.
  destruct (decide (zero_size w path)) as [Hz|Hz],
    (decide (fails w path)) as [Hf|Hf];
    unfold zero_size, fails in Hz, Hf;
    destruct (st_size w (Path.join (getcwd w) path)) as [[|sz]|];
    try done;
    intros [[[refout postout] diff] E]; rewrite E in *;
    destruct diff; done.
Qed.

Lemma tmpdirs_app (es1 es2 : list event) :
  forall live, tmpdirs (es1 ++ es2) live = tmpdirs es1 live ≫= tmpdirs es2.
Proof.
  induction es1 as [|e es1 IH]; intros live; [reflexivity|].
  destruct e; simpl; try apply IH; case_bool_decide; auto.
Qed.

Lemma chdirs_app (es1 es2 : list event) :
  chdirs (es1 ++ es2) = chdirs es1 ++ chdirs es2.
Proof. apply omap_app. Qed.

Lemma rmtrees_app (es1 es2 : list event) :
  rmtrees (es1 ++ es2) = rmtrees es1 ++ rmtrees es2.
Proof. apply omap_app. Qed.

(** What a round does to the directories. *)
Lemma round_directories (path : string) :
  (chdirs (round_events w o path) = []
   \/ last (chdirs (round_events w o path)) = Some (getcwd w))
  /\ (keeptmp o = false -> tmpdirs (round_events w o path) ∅ = Some ∅)
  /\ (keeptmp o = true -> rmtrees (round_events w o path) = []).
Proof.
  unfold round_events, before_test, after_test, report_events.
  destruct (st_size w (Path.join (getcwd w) path)) as [[|sz]|];
    [simpl; auto| |simpl; auto].
  destruct (test_at w (Path.join (getcwd w) path))
    as [[[refout postout] [|d diff]]|];
    destruct (has_basetmp o), (keeptmp o), (quiet o), (interactive o),
      (String.eqb (_prompt w (answer o)) "y");
    simpl; rewrite ?bool_decide_eq_false_2 by set_solver; simpl;
    rewrite ?bool_decide_eq_true_2 by set_solver; simpl;
    repeat split; auto; try discriminate;
    intros _; f_equal; set_solver.
Qed.

End RoundFacts.

(** X6: when [quiet] is set and [verbose] is not, a run that ends yields
    one character for each distinct test, in the order found ([s] for an
    empty file, [!] for a failure, [.] for a pass), then a line feed and
    the summary: no name, no diff. *)
Theorem quiet_run_yields_marks `{ReEngine}
    (w : os) (o : options) (paths : list string) :
  quiet o = true -> verbose o = false ->
  (run w o paths).2 = true ->
  out (run w o paths).1
  = (mark_of w <$> distinct (findtests w paths) ∅)
    ++ [Py.nl; summary (run w o paths).1].
Proof.
  intros Hq Hv Ok.
  destruct (run_closed w o paths) as (rs & _ & _ & _ & Hok).
  destruct (Hok Ok) as (<- & Hall & ->). rewrite Hv. f_equal.
  clear Hok Ok. induction Hall as [|p rs Hp Hall IH]; [reflexivity|].
  cbn [mbind list_bind fmap list_fmap].
  rewrite (round_output_quiet w o p Hq Hv Hp). simpl. f_equal. exact IH.
Qed.

Lemma quiet_run_yields_marks_witness :
  out (run (H := reference_engine) ex_world_fail
         (Options true false true "" false (Some "y")) ["t"; "t/p.t"]).1
  = (mark_of (H := reference_engine) ex_world_fail
       <$> distinct (findtests ex_world_fail ["t"; "t/p.t"]) ∅)
    ++ [Py.nl;
        summary (run (H := reference_engine) ex_world_fail
                   (Options true false true "" false (Some "y"))
                   ["t"; "t/p.t"]).1]
  /\ out (run (H := reference_engine) ex_world_fail
            (Options true false true "" false (Some "y")) ["t"; "t/p.t"]).1
     = ["s"; "!"; "."; Py.nl; ln "# Ran 3 tests, 1 skipped, 1 failed."].
Proof.
  split.
  - apply (quiet_run_yields_marks (H := reference_engine)); reflexivity.
  - vm_compute. reflexivity.
Defined.

(** X7: a run writes the file [abspath.err] exactly for the tests it met
    that fail, with the actual output of the test in it, whatever the
    options are. *)
Theorem err_file_holds_actual_output `{ReEngine}
    (w : os) (o : options) (paths : list string)
    (errpath : string) (lines : list string) :
  WriteErr errpath lines ∈ events (run w o paths).1
  <-> exists path,
        path ∈ seen (run w o paths).1
        /\ errpath = Path.join (getcwd w) path +:+ ".err"
        /\ fails_with w path lines.
Proof.
  rewrite run_events_elem. setoid_rewrite round_write_err. reflexivity.
Qed.

(** X8: a run copies over a test file only when [interactive] is set,
    [quiet] is not, and no answer other than [y] is given in advance; what
    it copies then is the [.err] file of a test that fails, over that test.
    With [y] given in advance it does so for every failing test it met.
    The files it removes are the [.err] files it has copied, and it prompts
    only when [interactive] is set and [quiet] is not. *)
Theorem test_file_changes_only_on_yes `{ReEngine}
    (w : os) (o : options) (paths : list string) :
  (forall src dst,
     Copy src dst ∈ events (run w o paths).1 ->
     interactive o = true /\ quiet o = false
     /\ (forall a, answer o = Some a -> a = "y")
     /\ exists path lines,
          path ∈ seen (run w o paths).1
          /\ dst = Path.join (getcwd w) path /\ src = dst +:+ ".err"
          /\ fails_with w path lines)
  /\ (interactive o = true -> quiet o = false -> answer o = Some "y" ->
      forall path lines,
        path ∈ seen (run w o paths).1 -> fails_with w path lines ->
        Copy (Path.join (getcwd w) path +:+ ".err")
             (Path.join (getcwd w) path) ∈ events (run w o paths).1)
  /\ (forall p,
        Remove p ∈ events (run w o paths).1
        <-> exists dst, Copy p dst ∈ events (run w o paths).1)
  /\ (forall q,
        Prompt q ∈ events (run w o paths).1 ->
        interactive o = true /\ quiet o = false).
Proof.
  split; [|split; [|split]].
  - intros src dst (path & Hin & Hc)%run_events_elem.
    apply round_copy in Hc as (Hi & Hq & Hy & -> & -> & lines & Hf).
    split; [exact Hi|]. split; [exact Hq|]. split.
    + intros a Ha. rewrite Ha in Hy. exact Hy.
    + now exists path, lines.
  - intros Hi Hq Ha path lines Hin Hf. apply run_events_elem.
    exists path. split; [exact Hin|]. apply round_copy.
    rewrite Ha. repeat split; auto. now exists lines.
  - intros p. rewrite run_events_elem. setoid_rewrite run_events_elem.
    setoid_rewrite round_remove. split.
    + intros (path & Hin & Hc). exists (Path.join (getcwd w) path), path.
      now split.
    + intros (dst & path & Hin & Hc). exists path. split; [exact Hin|].
      pose proof Hc as Hc'. apply round_copy in Hc' as (_ & _ & _ & -> & _).
      exact Hc.
  - intros q (path & _ & Hq)%run_events_elem.
    apply round_prompt in Hq. tauto.
Qed.

(** X9: a run ends in the directory where it started; when [keeptmp] is
    not set every temporary directory is made while it does not exist and
    is removed, so that none is left; when [keeptmp] is set none is
    removed.  This holds also of a run that a test ends with an
    exception. *)
Theorem temporary_directories_are_removed `{ReEngine}
    (w : os) (o : options) (paths : list string) :
  cwd_after w (events (run w o paths).1) = getcwd w
  /\ (keeptmp o = false -> tmpdirs (events (run w o paths).1) ∅ = Some ∅)
  /\ (keeptmp o = true -> rmtrees (events (run w o paths).1) = []).
Proof.
  apply (run_events_ind w o
    (fun es => cwd_after w es = getcwd w
               /\ (keeptmp o = false -> tmpdirs es ∅ = Some ∅)
               /\ (keeptmp o = true -> rmtrees es = []))).
  - repeat split.
  - intros path es (Hc & Ht & Hr).
    destruct (round_directories w o path) as (Hc' & Ht' & Hr').
    split; [|split].
    + unfold cwd_after in *. rewrite chdirs_app.
      destruct Hc' as [->|Hc']; [now rewrite app_nil_r|].
      destruct (chdirs (round_events w o path)) as [|d ds] eqn:E;
        [discriminate|].
      rewrite last_app, Hc'. reflexivity.
    + intros Hk. rewrite tmpdirs_app, (Ht Hk). simpl. now apply Ht'.
    + intros Hk. rewrite rmtrees_app, (Hr Hk), (Hr' Hk). reflexivity.
Qed.

(** ** [main] *)

Section MainFacts.
Context `{ReEngine}.
Variable h : host.
Variable opts : Opts.t.

Lemma first_conflict_none :
  first_conflict (conflicts opts) = None
  <-> Opts.yes opts && Opts.no opts
      || Opts.quiet opts && Opts.verbose opts
      || Opts.quiet opts && Opts.interactive opts = false.
Proof.
  unfold conflicts. simpl.
  destruct (Opts.yes opts), (Opts.no opts), (Opts.quiet opts),
    (Opts.verbose opts), (Opts.interactive opts); simpl; split; congruence.
Qed.

Lemma filter_missing_nil (paths : list string) :
  filter (fun p => path_exists h p = false) paths = []
  <-> forallb (path_exists h) paths = true.
Proof.
  induction paths as [|p paths IH]; simpl; [tauto|].
  rewrite filter_cons.
  destruct (decide (path_exists h p = false)) as [E|E].
  - rewrite E. split; discriminate.
  - apply not_false_iff_true in E. rewrite E. exact IH.
Qed.

(** [main] when it turns its arguments down, and when it does not. *)
Lemma main_rejected (paths : list string) :
  rejected h opts paths = true ->
  ending (main h opts paths) = Returns (Some 2%Z)
  /\ environ (main h opts paths) = []
  /\ effects (main h opts paths) = []
  /\ length (stdout (main h opts paths) ++ stderr (main h opts paths)) = 1.
Proof.
  unfold rejected, main. intros Hr.
  destruct (first_conflict (conflicts opts)) as [[s1 s2]|] eqn:Ec;
    [now repeat split|].
  apply first_conflict_none in Ec. rewrite Ec in Hr. simpl in Hr.
  destruct paths as [|p paths]; [now repeat split|].
  rewrite bool_decide_eq_false_2 in Hr by discriminate. simpl in Hr.
  destruct (filter _ (p :: paths)) as [|bad rest] eqn:Ef; [|now repeat split].
  apply filter_missing_nil in Ef. simpl in Ef. rewrite Ef in Hr. discriminate.
Qed.

Lemma main_accepted (paths : list string) :
  rejected h opts paths = false ->
  main h opts paths
  = let r := run (host_os h) (main_options h opts) paths in
    MainResult
      (if r.2 then Returns None else Raises)
      (out r.1 ++ if r.2 && negb (Opts.verbose opts) then [Py.nl] else [])
      []
      (main_environ opts (mkdtemp h) (Path.join (mkdtemp h) "tmp"))
      ([Mkdir (mkdtemp h); Mkdir (Path.join (mkdtemp h) "tmp")]
       ++ events r.1
       ++ if Opts.keep_tmpdir opts then [] else [Rmtree (mkdtemp h)]).
Proof.
  unfold rejected, main. intros Hr.
  apply orb_false_iff in Hr as [Hr Hm]. apply orb_false_iff in Hr as [Hc Hp].
  apply first_conflict_none in Hc. rewrite Hc.
  destruct paths as [|p paths]; [discriminate|].
  apply negb_false_iff, filter_missing_nil in Hm. rewrite Hm.
  fold (main_options h opts).
  now destruct (run (host_os h) (main_options h opts) (p :: paths)).
Qed.

End MainFacts.

(** X10: [main] returns 2, and no other number, exactly when it turns its
    arguments down: two options exclude each other, no path is given, or a
    path does not exist.  It has then written one message and done nothing
    else: no directory made, no variable set, no test run. *)
Theorem main_turns_down_bad_arguments `{ReEngine}
    (h : host) (opts : Opts.t) (paths : list string) :
  (forall c, ending (main h opts paths) = Returns (Some c) -> c = 2%Z)
  /\ (ending (main h opts paths) = Returns (Some 2%Z)
      <-> rejected h opts paths = true)
  /\ (rejected h opts paths = true ->
      environ (main h opts paths) = []
      /\ effects (main h opts paths) = []
      /\ length (stdout (main h opts paths) ++ stderr (main h opts paths))
         = 1).
Proof.
  destruct (rejected h opts paths) eqn:Hr.
  - destruct (main_rejected h opts paths Hr) as (He & Hrest).
    rewrite He. split; [now intros c [= <-]|]. split; [tauto|]. now intros _.
  - rewrite (main_accepted h opts paths Hr). cbn [ending].
    destruct (run _ _ _).2; repeat split; try discriminate.
Qed.



(** X12: when [main] accepts its arguments it makes its directory and
    [tmp] in it first; unless [keep_tmpdir] is set, removing its directory
    is the last thing it does, also when the run ends with an exception;
    when [keep_tmpdir] is set it removes nothing. *)
Theorem main_removes_its_directory `{ReEngine}
    (h : host) (opts : Opts.t) (paths : list string) :
  rejected h opts paths = false ->
  take 2 (effects (main h opts paths))
  = [Mkdir (mkdtemp h); Mkdir (Path.join (mkdtemp h) "tmp")]
  /\ (Opts.keep_tmpdir opts = false ->
      last (effects (main h opts paths)) = Some (Rmtree (mkdtemp h)))
  /\ (Opts.keep_tmpdir opts = true ->
      rmtrees (effects (main h opts paths)) = []).
Proof.
  intros Hr. rewrite (main_accepted h opts paths Hr). cbn zeta.
  cbn [effects]. split; [reflexivity|]. split; intros Hk; rewrite Hk.
  - rewrite !app_assoc. apply last_snoc.
  - rewrite app_nil_r, rmtrees_app. simpl.
    apply (run_events_ind (host_os h) (main_options h opts)
             (fun es => rmtrees es = [])); [reflexivity|].
    intros path es Hes. rewrite rmtrees_app, Hes.
    now apply (round_directories (host_os h) (main_options h opts) path).
Qed.

Lemma main_removes_its_directory_witness :
  take 2 (effects (main (H := reference_engine) ex_host
                     (Opts.Make false true false false false false true)
                     ["t"]))
  = [Mkdir (mkdtemp ex_host); Mkdir (Path.join (mkdtemp ex_host) "tmp")]
  /\ (Opts.keep_tmpdir (Opts.Make false true false false false false true)
      = false ->
      last (effects (main (H := reference_engine) ex_host
                       (Opts.Make false true false false false false true)
                       ["t"]))
      = Some (Rmtree (mkdtemp ex_host)))
  /\ (Opts.keep_tmpdir (Opts.Make false true false false false false true)
      = true ->
      rmtrees (effects (main (H := reference_engine) ex_host
                          (Opts.Make false true false false false false true)
                          ["t"])) = []).
Proof.
  apply (main_removes_its_directory (H := reference_engine)).
  vm_compute. reflexivity.
Defined.

(** X13: [main] changes a test file only with [-i] and without [-n] and
    [-q]: without [-i], or with [-n], nothing is copied and nothing is
    removed but the directory of [main]; in particular [-y] without [-i]
    merges nothing. *)
Theorem main_merges_only_interactively `{ReEngine}
    (h : host) (opts : Opts.t) (paths : list string) :
  Opts.interactive opts = false \/ Opts.no opts = true ->
  Forall (fun e => is_merge e = false) (effects (main h opts paths)).
Proof.
  intros Hopt. destruct (rejected h opts paths) eqn:Hr.
  - destruct (main_rejected h opts paths Hr) as (_ & _ & -> & _). constructor.
  - rewrite (main_accepted h opts paths Hr). cbn zeta. cbn [effects].
    repeat (apply Forall_cons; split; [reflexivity|]).
    apply Forall_app. split; [|now destruct (Opts.keep_tmpdir opts);
                                repeat constructor].
    apply Forall_forall. intros e (path & _ & He)%run_events_elem.
    destruct e; try reflexivity; exfalso.
    + apply round_copy in He as (Hi & _ & Hy & _). simpl in Hi, Hy.
      destruct Hopt as [Hopt|Hopt]; [congruence|].
      unfold rejected in Hr. unfold main_answer in Hy.
      rewrite Hopt in *. destruct (Opts.yes opts); simpl in *; discriminate.
    + apply round_remove, round_copy in He as (Hi & _ & Hy & _).
      simpl in Hi, Hy.
      destruct Hopt as [Hopt|Hopt]; [congruence|].
      unfold rejected in Hr. unfold main_answer in Hy.
      rewrite Hopt in *. destruct (Opts.yes opts); simpl in *; discriminate.
Qed.

Lemma main_merges_only_interactively_witness :
  Forall (fun e => is_merge e = false)
    (effects (main (H := reference_engine) ex_host
                (Opts.Make false false false true false false true) ["t"]))
  /\ effects (main (H := reference_engine) ex_host
                (Opts.Make false false true true false false true) ["t"])
     = [Mkdir "/tmp/cramtests-0"; Mkdir "/tmp/cramtests-0/tmp";
        Mkdir "/tmp/cramtests-0/f.t"; Chdir "/tmp/cramtests-0/f.t";
        Exec "t/f.t" "/w/t/f.t"; Chdir "/w"; Rmtree "/tmp/cramtests-0/f.t";
        WriteErr "/w/t/f.t.err" [ln "  $ echo hi"; ln "  hi"];
        Prompt "Accept this change?";
        Copy "/w/t/f.t.err" "/w/t/f.t"; Remove "/w/t/f.t.err";
        Mkdir "/tmp/cramtests-0/p.t"; Chdir "/tmp/cramtests-0/p.t";
        Exec "t/p.t" "/w/t/p.t"; Chdir "/w"; Rmtree "/tmp/cramtests-0/p.t";
        Rmtree "/tmp/cramtests-0"].
Proof.
  split.
  - apply (main_merges_only_interactively (H := reference_engine)).
    left. reflexivity.
  - vm_compute. reflexivity.
Defined.

(** ** Numbers and words in text *)

Lemma digits_app (s1 s2 : string) :
  forall acc, Py.digits acc (s1 +:+ s2) = Py.digits acc s1 ≫= fun a => Py.digits a s2.
Proof.
  induction s1 as [|c s1 IH]; intros acc; [reflexivity|].
  change (String c s1 +:+ s2) with (String c (s1 +:+ s2)). simpl.
  destruct (Ascii.is_nat c); [apply IH | reflexivity].
Qed.

Lemma pretty_N_go_app (x : N) :
  forall s, pretty_N_go x s = pretty_N_go x "" +:+ s.
Proof.
  induction (N.lt_wf_0 x) as [x _ IH]. intros s.
  destruct (decide (x = 0%N)) as [->|Hx]; [reflexivity|].
  assert (Hlt : (x `div` 10 < x)%N) by (apply N.div_lt; lia).
  rewrite !(pretty_N_go_step x) by lia.
  rewrite (IH _ Hlt (String _ s)), (IH _ Hlt (String _ "")).
  apply chars_inj. rewrite !chars_app. now rewrite <- app_assoc.
Qed.

Lemma is_nat_pretty_N_char (d : N) :
  (d < 10)%N -> Ascii.is_nat (pretty_N_char d) = Some (N.to_nat d).
Proof.
  intros Hd.
  assert (Hc : d ∈ [0; 1; 2; 3; 4; 5; 6; 7; 8; 9]%N).
  { rewrite !elem_of_cons. lia. }
  repeat (apply elem_of_cons in Hc as [->|Hc]; [reflexivity|]).
  now apply elem_of_nil in Hc.
Qed.

Lemma digits_pretty_N_go (x : N) :
  Py.digits 0 (pretty_N_go x "") = Some (Z.of_N x).
Proof.
  induction (N.lt_wf_0 x) as [x _ IH].
  destruct (decide (x = 0%N)) as [->|Hx]; [reflexivity|].
  rewrite pretty_N_go_step by lia. rewrite pretty_N_go_app, digits_app.
  rewrite IH by (apply N.div_lt; lia). simpl.
  rewrite is_nat_pretty_N_char by (apply N.mod_lt; lia).
  f_equal. rewrite N_nat_Z.
  pose proof (N.div_mod x 10). lia.
Qed.

Lemma digits_pretty (n : nat) :
  Py.digits 0 (Py.str_of_int (Z.of_nat n)) = Some (Z.of_nat n).
Proof.
  unfold Py.str_of_int, pretty, pretty_Z.
  destruct (Z.of_nat n) as [|p|p] eqn:E; [reflexivity| |lia].
  unfold pretty, pretty_positive, pretty, pretty_N.
  rewrite decide_False by discriminate. apply digits_pretty_N_go.
Qed.

(** A text of digits is not empty when it is read as a number from the
    first character on, and has no white space. *)
Lemma digits_word (s : string) :
  forall acc z, Py.digits acc s = Some z ->
    forallb (fun c => negb (Ascii.is_space c)) (Py.chars s) = true.
Proof.
  induction s as [|c s IH]; intros acc z Hd; [reflexivity|].
  simpl in Hd. destruct (Ascii.is_nat c) as [d|] eqn:Ec; [|discriminate].
  change (Py.chars (String c s)) with (c :: Py.chars s). simpl.
  rewrite (IH _ _ Hd), andb_true_r.
  destruct c as [[] [] [] [] [] [] [] []]; try discriminate Ec; reflexivity.
Qed.

Lemma int_digits (s : string) (z : Z) :
  s <> "" -> Py.digits 0 s = Some z -> Py.int s = Some z.
Proof.
  intros Hs Hd. destruct s as [|c s]; [congruence|].
  pose proof Hd as Hd'. simpl in Hd'.
  destruct (Ascii.is_nat c) as [d|] eqn:Ec; [|discriminate].
  destruct c as [[] [] [] [] [] [] [] []]; try discriminate Ec; exact Hd.
Qed.

Lemma str_of_int_nonempty (n : nat) : Py.str_of_int (Z.of_nat n) <> "".
Proof.
  unfold Py.str_of_int, pretty, pretty_Z.
  destruct (Z.of_nat n) as [|p|p] eqn:E; [discriminate| |lia].
  unfold pretty, pretty_positive, pretty, pretty_N.
  rewrite decide_False by discriminate. intros E0.
  pose proof (digits_pretty_N_go (N.pos p)) as Hd. rewrite E0 in Hd.
  discriminate.
Qed.

(** [int] reads back what ['%s' % n] prints. *)
Lemma int_str_of_int (n : nat) :
  Py.int (Py.str_of_int (Z.of_nat n)) = Some (Z.of_nat n).
Proof.
  apply int_digits; [apply str_of_int_nonempty | apply digits_pretty].
Qed.

Lemma is_word_str_of_int (n : nat) :
  is_word (Py.str_of_int (Z.of_nat n)) = true.
Proof.
  unfold is_word. apply andb_true_iff. split.
  - apply negb_true_iff, String.eqb_neq, str_of_int_nonempty.
  - apply (digits_word _ 0%Z (Z.of_nat n)), digits_pretty.
Qed.

Lemma chars_rev_app (s1 s2 : string) :
  Py.chars (String.rev_app s1 s2) = rev (Py.chars s1) ++ Py.chars s2.
Proof.
  revert s2. induction s1 as [|c s1 IH]; intros s2; [reflexivity|].
  simpl. rewrite IH. change (Py.chars (String c s1)) with (c :: Py.chars s1).
  change (Py.chars (String c s2)) with (c :: Py.chars s2).
  simpl. now rewrite <- app_assoc.
Qed.

(** [split] on a word, a white space, and the rest. *)
Lemma words_go_word (w : string) :
  forall cur s,
    forallb (fun c => negb (Ascii.is_space c)) (Py.chars w) = true ->
    String.words_go (Some cur) (w +:+ s)
    = String.words_go (Some (String.rev_app w cur)) s.
Proof.
  induction w as [|c w IH]; intros cur s Hw; [reflexivity|].
  change (Py.chars (String c w)) with (c :: Py.chars w) in Hw. simpl in Hw.
  apply andb_true_iff in Hw as [Hc Hw]. apply negb_true_iff in Hc.
  change (String c w +:+ s) with (String c (w +:+ s)). simpl. rewrite Hc.
  now apply IH.
Qed.

Lemma words_word (w s : string) (sp : ascii) :
  is_word w = true -> Ascii.is_space sp = true ->
  String.words (w +:+ String sp s) = w :: String.words s.
Proof.
  unfold is_word. intros [Hne Hw]%andb_true_iff Hsp.
  destruct w as [|c w]; [discriminate|].
  change (Py.chars (String c w)) with (c :: Py.chars w) in Hw. simpl in Hw.
  apply andb_true_iff in Hw as [Hc Hw]. apply negb_true_iff in Hc.
  unfold String.words.
  change (String c w +:+ String sp s) with (String c (w +:+ String sp s)).
  simpl. rewrite Hc. simpl. rewrite (words_go_word w _ _ Hw). simpl.
  rewrite Hsp. simpl. f_equal. unfold String.rev. apply chars_inj.
  rewrite !chars_rev_app. change (Py.chars (String c "")) with [c].
  change (Py.chars "") with (@nil ascii).
  rewrite app_nil_r, rev_app_distr, rev_involutive. reflexivity.
Qed.

(** A sentinel line starts with the salt, and its second and third words
    are read back as the index and the status. *)
Lemma sentinel_line_parses (salt : string) (i ret : nat) :
  is_word salt = true ->
  Py.startswith (sentinel_line salt i ret) salt = true
  /\ Py.split (sentinel_line salt i ret) !! 1 ≫= Py.int = Some (Z.of_nat i)
  /\ Py.split (sentinel_line salt i ret) !! 2 ≫= Py.int = Some (Z.of_nat ret).
Proof.
  intros Hs. split; [apply startswith_spec; now eexists|].
  unfold Py.split, sentinel_line.
  change (salt +:+ " " +:+ ?r) with (salt +:+ String " " r).
  rewrite (words_word salt _ " " Hs eq_refl).
  change (Py.str_of_int (Z.of_nat i) +:+ " " +:+ ?r)
    with (Py.str_of_int (Z.of_nat i) +:+ String " " r).
  rewrite (words_word _ _ " " (is_word_str_of_int i) eq_refl).
  change (Py.nl) with (String "010"%char "").
  rewrite (words_word _ _ "010"%char (is_word_str_of_int ret) eq_refl).
  simpl. split; apply int_str_of_int.
Qed.

(** ** The two loops of [test] *)

Lemma startswith_app_l (l p q : string) :
  Py.startswith l (p +:+ q) = true -> Py.startswith l p = true.
Proof.
  rewrite !startswith_spec. intros [r ->]. exists (q +:+ r).
  apply chars_inj. rewrite !chars_app. now rewrite app_assoc.
Qed.

Lemma continuation_not_command (l : string) :
  is_continuation l = true -> is_command l = false.
Proof.
  unfold is_continuation, is_command. intros [r ->]%startswith_spec.
  unfold Py.startswith. apply bool_decide_eq_false. intros [k Hk].
  rewrite chars_app in Hk. discriminate Hk.
Qed.

Lemma note_not_indented (l : string) :
  is_note l = true -> is_command l = false /\ is_continuation l = false.
Proof.
  unfold is_note, is_command, is_continuation. intros Hn%negb_true_iff.
  split; apply not_true_iff_false; intros Hc;
    [apply (startswith_app_l l "  " "$ ") in Hc
    |apply (startswith_app_l l "  " "> ") in Hc]; congruence.
Qed.

Lemma mark_percent (tail : string) :
  mark ("  " +:+ tail +:+ Py.nl) = percent tail.
Proof.
  unfold mark, percent. destruct (String.eqb_spec tail "") as [->|Hne].
  - reflexivity.
  - destruct (String.eqb_spec ("  " +:+ tail +:+ Py.nl) ("  " +:+ Py.nl))
      as [E|_].
    + exfalso. apply Hne. apply chars_inj.
      apply (f_equal Py.chars) in E. rewrite !chars_app in E.
      apply app_inv_head in E.
      change (Py.chars Py.nl) with ([] ++ Py.chars Py.nl) in E at 2.
      now apply app_inv_tail in E.
    + f_equal.
      replace ("  " +:+ tail +:+ Py.nl) with (("  " +:+ tail) +:+ Py.nl)
        by (apply chars_inj; rewrite !chars_app; now rewrite app_assoc).
      replace (Py.drop_last 1 (("  " +:+ tail) +:+ Py.nl))
        with ("  " +:+ tail)
        by (symmetry; apply (drop_last_app ("  " +:+ tail) Py.nl)).
      apply chars_inj. rewrite !chars_app. now rewrite <- app_assoc.
Qed.

Section Reading.
Variable salt : string.

Lemma after_get_append (k k' : Z) (line : string) (after : gmap Z (list string)) :
  after_get (after_append k line after) k'
  = after_get after k' ++ (if decide (k' = k) then [line] else []).
Proof.
  unfold after_get, after_append. destruct (decide (k' = k)) as [->|Hne].
  - now rewrite lookup_insert_eq.
  - rewrite lookup_insert_ne by congruence. now rewrite app_nil_r.
Qed.

Lemma read_lines_app (l1 l2 : list string) :
  forall i r,
    read_lines salt i (l1 ++ l2) r
    = read_lines salt (i + Z.of_nat (length l1)) l2 (read_lines salt i l1 r).
Proof.
  induction l1 as [|l l1 IH]; intros i r; simpl.
  - now rewrite Z.add_0_r.
  - rewrite IH. f_equal. lia.
Qed.

(** Lines that are not indented go to the command before them. *)
Lemma read_notes (notes : list string) :
  forall i r,
    forallb is_note notes = true ->
    r_pos (read_lines salt i notes r) = r_pos r
    /\ r_prepos (read_lines salt i notes r) = r_prepos r
    /\ forall k, after_get (r_after (read_lines salt i notes r)) k
                 = after_get (r_after r) k
                   ++ (if decide (k = r_pos r) then notes else []).
Proof.
  induction notes as [|l notes IH]; intros i r Hn; simpl.
  - repeat split. intros k. destruct (decide _); now rewrite app_nil_r.
  - simpl in Hn. apply andb_true_iff in Hn as [Hl Hn].
    destruct (note_not_indented l Hl) as [Hc Hk].
    unfold is_command, is_continuation, is_note in Hc, Hk, Hl.
    unfold read_line. rewrite Hc, Hk, Hl.
    destruct (IH (i + 1)%Z
                (Reader (after_append (r_pos r) l (r_after r)) (r_pos r)
                   (r_prepos r) (r_stdin r)) Hn) as (Hp & Hq & Ha).
    simpl in Hp, Hq, Ha. split; [exact Hp|]. split; [exact Hq|].
    intros k. rewrite Ha, after_get_append.
    destruct (decide (k = r_pos r)); now rewrite <- app_assoc.
Qed.

(** Continuation lines go where their command went. *)
Lemma read_continuations (conts : list string) :
  forall i r,
    forallb is_continuation conts = true ->
    r_pos (read_lines salt i conts r) = r_pos r
    /\ r_prepos (read_lines salt i conts r) = r_prepos r
    /\ forall k, after_get (r_after (read_lines salt i conts r)) k
                 = after_get (r_after r) k
                   ++ (if decide (k = r_prepos r) then conts else []).
Proof.
  induction conts as [|l conts IH]; intros i r Hn; simpl.
  - repeat split. intros k. destruct (decide _); now rewrite app_nil_r.
  - simpl in Hn. apply andb_true_iff in Hn as [Hl Hn].
    pose proof (continuation_not_command l Hl) as Hc.
    unfold is_command, is_continuation in Hc, Hl.
    unfold read_line. rewrite Hc, Hl.
    destruct (IH (i + 1)%Z
                (Reader (after_append (r_prepos r) l (r_after r)) (r_pos r)
                   (r_prepos r)
                   (r_stdin r +:+ Py.drop 4 l)) Hn) as (Hp & Hq & Ha).
    simpl in Hp, Hq, Ha. split; [exact Hp|]. split; [exact Hq|].
    intros k. rewrite Ha, after_get_append.
    destruct (decide (k = r_prepos r)); now rewrite <- app_assoc.
Qed.

(** Expected output is not kept. *)
Lemma read_expected (expected : list string) :
  forall i r,
    forallb is_output expected = true ->
    read_lines salt i expected r = r.
Proof.
  induction expected as [|l expected IH]; intros i r Hn; [reflexivity|].
  simpl in Hn. apply andb_true_iff in Hn as [Hl Hn].
  unfold is_output in Hl.
  apply andb_true_iff in Hl as [[H2 Hc%negb_true_iff]%andb_true_iff
                                  Hk%negb_true_iff].
  simpl. unfold read_line. rewrite Hc, Hk, H2. simpl. now apply IH.
Qed.

(** One step: the command and its continuation lines go to the command
    before, the notes to this command. *)
Lemma read_step (s : step) (i : Z) (r : reader) :
  is_step s = true ->
  let r' := read_lines salt i (step_lines s) r in
  r_pos r' = i
  /\ forall k, after_get (r_after r') k
               = after_get (r_after r) k
                 ++ (if decide (k = r_pos r) then s_cmd s :: s_conts s else [])
                 ++ (if decide (k = i) then s_notes s else []).
Proof.
  unfold is_step. intros [[[Hc Hk]%andb_true_iff He]%andb_true_iff
                            Hn]%andb_true_iff.
  unfold step_lines. cbn [read_lines]. unfold is_command in Hc.
  unfold read_line. rewrite Hc.
  set (r1 := Reader _ i (r_pos r) _).
  rewrite !read_lines_app.
  destruct (read_continuations (s_conts s) (i + 1)%Z r1 Hk) as (Hp2 & Hq2 & Ha2).
  set (r2 := read_lines salt (i + 1)%Z (s_conts s) r1) in *.
  rewrite (read_expected (s_expected s) _ r2 He).
  destruct (read_notes (s_notes s)
              (i + 1 + Z.of_nat (length (s_conts s))
               + Z.of_nat (length (s_expected s)))%Z r2 Hn)
    as (Hp3 & Hq3 & Ha3).
  split; [now rewrite Hp3, Hp2|].
  intros k. rewrite Ha3, Ha2, Hp2. unfold r1. cbn [r_after r_pos r_prepos].
  rewrite after_get_append.
  destruct (decide (k = r_pos r)), (decide (k = i));
    rewrite <- ?app_assoc, ?app_nil_r; reflexivity.
Qed.

Lemma length_step_lines (s : step) : 0 < length (step_lines s).
Proof. unfold step_lines. simpl. lia. Qed.

(** The steps from line [i] on: what they add to [after] for the command
    before them, and that they add nothing else below [i], nor from the
    end of the file on. *)
Lemma read_steps (steps : list step) :
  forall (i : nat) (r : reader),
    forallb is_step steps = true ->
    (r_pos r < Z.of_nat i)%Z ->
    let F := r_after (read_lines salt (Z.of_nat i) (steps ≫= step_lines) r) in
    after_get F (r_pos r)
    = after_get (r_after r) (r_pos r)
      ++ match steps with [] => [] | s :: _ => s_cmd s :: s_conts s end
    /\ (forall k, (k < Z.of_nat i)%Z -> k <> r_pos r ->
          after_get F k = after_get (r_after r) k)
    /\ (forall k, (Z.of_nat (i + length (steps ≫= step_lines)) <= k)%Z ->
          after_get F k = after_get (r_after r) k).
Proof.
  induction steps as [|s steps IH]; intros i r Hs Hp.
  - simpl. rewrite app_nil_r. auto.
  - simpl in Hs. apply andb_true_iff in Hs as [Hs Hss].
    cbn [mbind list_bind]. cbn zeta. rewrite read_lines_app.
    destruct (read_step s (Z.of_nat i) r Hs) as [Hp1 Ha1].
    set (r1 := read_lines salt (Z.of_nat i) (step_lines s) r) in *.
    pose proof (length_step_lines s) as Hlen.
    replace (Z.of_nat i + Z.of_nat (length (step_lines s)))%Z
      with (Z.of_nat (i + length (step_lines s))) by lia.
    destruct (IH (i + length (step_lines s)) r1 Hss) as (Hb & Ha & Hc);
      [rewrite Hp1; lia|].
    rewrite Hp1 in Ha, Hb.
    split; [|split].
    + rewrite Ha by lia. rewrite Ha1.
      rewrite decide_True by reflexivity. rewrite decide_False by lia.
      now rewrite app_nil_r.
    + intros k Hk Hne. rewrite Ha by lia. rewrite Ha1.
      rewrite decide_False by exact Hne. rewrite decide_False by lia.
      now rewrite !app_nil_r.
    + intros k Hk. rewrite length_app in Hk. rewrite Hc by lia. rewrite Ha1.
      rewrite decide_False by lia. rewrite decide_False by lia.
      now rewrite !app_nil_r.
Qed.

End Reading.

Section Writing.
Variable salt : string.
Hypothesis salt_word : is_word salt = true.

(** Output that is not a sentinel is indented. *)
Lemma write_plain (ls : list string) :
  forall post after pos rest,
    forallb (fun l => negb (Py.startswith l salt)) ls = true ->
    write_lines salt (ls ++ rest) (Writer post after pos)
    = write_lines salt rest
        (Writer (post ++ (String.app "  " <$> ls)) after pos).
Proof.
  induction ls as [|l ls IH]; intros post after pos rest Hls; simpl.
  - now rewrite app_nil_r.
  - simpl in Hls. apply andb_true_iff in Hls as [Hl%negb_true_iff Hls].
    unfold write_line. rewrite Hl. simpl. rewrite IH by exact Hls.
    now rewrite <- app_assoc.
Qed.

Lemma status_spec (ret : nat) :
  (if bool_decide (Z.of_nat ret ≠ 0%Z) then [status_line (Z.of_nat ret)]
   else [])
  = status ret.
Proof.
  destruct ret as [|n]; [reflexivity|].
  rewrite bool_decide_eq_true_2 by lia. reflexivity.
Qed.

(** The two lines that a sentinel prints. *)
Lemma write_sentinel (i ret : nat) (tail : string) (post : list string)
    (after : gmap Z (list string)) (pos : Z) (rest : list string) :
  Py.startswith (tail +:+ Py.nl) salt = false ->
  write_lines salt ((tail +:+ Py.nl) :: sentinel_line salt i ret :: rest)
    (Writer post after pos)
  = write_lines salt rest
      (Writer (post ++ percent tail ++ status ret ++ after_get after pos)
         (delete pos after) (Z.of_nat i)).
Proof.
  intros Ht. destruct (sentinel_line_parses salt i ret salt_word)
    as (Hs & Hi & Hr).
  cbn [write_lines]. unfold write_line. rewrite Ht. cbn [mbind option_bind].
  rewrite Hs. cbn [w_postout w_after w_pos].
  rewrite (on_sentinel_spec _ _ _ _ _ _ _ Hr Hi). cbn [mbind option_bind].
  now rewrite mark_percent, status_spec.
Qed.

Lemma after_get_delete (after : gmap Z (list string)) (pos k : Z) :
  k <> pos -> after_get (delete pos after) k = after_get after k.
Proof. intros Hne. unfold after_get. now rewrite lookup_delete_ne. Qed.

(** The second loop on the output of the steps from line [i] on, when the
    first loop has read the lines before with [r0] as its result. *)
Lemma write_steps (steps : list (step * ran)) :
  forall (i : nat) (r0 : reader) (post : list string)
         (after' : gmap Z (list string)) (ret : nat) (tail : string),
    (r_pos r0 < Z.of_nat i)%Z ->
    (forall k, (Z.of_nat i <= k)%Z -> after_get (r_after r0) k = []) ->
    (forall k, (r_pos r0 <= k)%Z ->
       after_get after' k
       = after_get (r_after (read_lines salt (Z.of_nat i)
                               (steps.*1 ≫= step_lines) r0)) k) ->
    forallb is_step steps.*1 = true ->
    forallb (clean salt) steps.*2 = true ->
    Py.startswith (tail +:+ Py.nl) salt = false ->
    exists w,
      write_lines salt (transcript salt i ret tail steps)
        (Writer post after' (r_pos r0)) = Some w
      /\ w_postout w ++ after_get (w_after w) (w_pos w)
         = post ++ percent tail ++ status ret
           ++ after_get (r_after r0) (r_pos r0) ++ (steps ≫= actual_lines).
Proof.
  induction steps as [|[s r] steps IH];
    intros i r0 post after' ret tail Hp Hkeys Hafter Hsteps Hclean Htail.
  - cbn [transcript]. rewrite write_sentinel by exact Htail.
    eexists. split; [reflexivity|]. cbn [w_postout w_after w_pos].
    rewrite after_get_delete by lia. rewrite !Hafter by lia.
    simpl. rewrite (Hkeys (Z.of_nat i)) by lia.
    now rewrite <- !app_assoc, !app_nil_r.
  - cbn [transcript]. rewrite write_sentinel by exact Htail.
    cbn [fmap list_fmap fst snd forallb] in Hsteps, Hclean.
    apply andb_true_iff in Hsteps as [Hs Hsteps].
    apply andb_true_iff in Hclean as [Hc Hclean].
    unfold clean in Hc. apply andb_true_iff in Hc as [Hpr Hun%negb_true_iff].
    rewrite write_plain by exact Hpr.
    pose proof (length_step_lines s) as Hlen.
    destruct (read_step salt s (Z.of_nat i) r0 Hs) as [Hp1 Ha1].
    set (r1 := read_lines salt (Z.of_nat i) (step_lines s) r0) in *.
    assert (HF : forall k,
               after_get (r_after (read_lines salt (Z.of_nat i)
                                     (((s, r) :: steps).*1 ≫= step_lines) r0)) k
               = after_get (r_after
                   (read_lines salt (Z.of_nat (i + length (step_lines s)))
                      (steps.*1 ≫= step_lines) r1)) k).
    { intros k. cbn [fmap list_fmap fst mbind list_bind].
      rewrite read_lines_app. fold r1. do 3 f_equal. lia. }
    destruct (read_steps salt ((s, r) :: steps).*1 i r0) as (Hhead & _ & _);
      [cbn [fmap list_fmap fst forallb]; now rewrite Hs, Hsteps | exact Hp |].
    destruct (IH (i + length (step_lines s)) r1
                (post ++ percent tail ++ status ret
                 ++ after_get after' (r_pos r0)
                 ++ (String.app "  " <$> printed r))
                (delete (r_pos r0) after') (exit_code r) (unfinished r))
      as (w & Hw & Hout).
    + rewrite Hp1. lia.
    + intros k Hk. rewrite Ha1. rewrite (Hkeys k) by lia.
      rewrite decide_False by lia. rewrite decide_False by lia. reflexivity.
    + intros k Hk. rewrite Hp1 in Hk. rewrite after_get_delete by lia.
      rewrite Hafter by lia. apply HF.
    + exact Hsteps.
    + exact Hclean.
    + exact Hun.
    + rewrite Hp1 in Hw. exists w. split.
      * rewrite <- Hw. f_equal. f_equal. now rewrite <- !app_assoc.
      * rewrite Hout. rewrite Hafter by lia. rewrite Hhead.
        rewrite Hp1, Ha1. rewrite (Hkeys (Z.of_nat i)) by lia.
        rewrite decide_False by lia. rewrite decide_True by reflexivity.
        cbn [mbind list_bind actual_lines]. simpl.
        rewrite <- ?app_assoc. simpl. now rewrite <- ?app_assoc.
Qed.

End Writing.

Lemma nl_not_salt (salt : string) :
  is_word salt = true -> Py.startswith ("" +:+ Py.nl) salt = false.
Proof.
  unfold is_word. intros [Hne Hw]%andb_true_iff.
  destruct salt as [|c s]; [discriminate|].
  change (Py.chars (String c s)) with (c :: Py.chars s) in Hw. simpl in Hw.
  apply andb_true_iff in Hw as [Hc%negb_true_iff _].
  apply not_true_iff_false. intros [r Hr]%startswith_spec.
  change (String c s +:+ r) with (String c (s +:+ r)) in Hr.
  injection Hr as <- _. discriminate.
Qed.

(** The two loops of [test] together, on a file in the order that [test]
    keeps and the output of a shell that runs its commands in turn. *)
Lemma reconstruct_steps
    (salt : string) (header : list string) (steps : list (step * ran)) :
  is_word salt = true ->
  forallb is_note header = true ->
  forallb is_step steps.*1 = true ->
  forallb (clean salt) steps.*2 = true ->
  reconstruct salt (r_after (read_file salt (file_of header steps.*1)))
    (transcript salt (length header) 0 "" steps)
  = Some (postout_of header steps).
Proof.
  intros Hsalt Hh Hs Hc. unfold read_file, file_of, reconstruct.
  cbn [r_after]. rewrite read_lines_app.
  destruct (read_notes salt header 0%Z (Reader ∅ (-1) (-1) "") Hh)
    as (Hp & _ & Ha).
  set (r0 := read_lines salt 0 header (Reader ∅ (-1) (-1) "")) in *.
  cbn [r_pos r_after] in Hp, Ha.
  destruct (write_steps salt Hsalt steps (length header) r0 []
              (r_after (read_lines salt (0 + Z.of_nat (length header))
                          (steps.*1 ≫= step_lines) r0)) 0 "")
    as (w & Hw & Hout).
  - rewrite Hp. lia.
  - intros k Hk. rewrite Ha. now rewrite decide_False by lia.
  - intros k _. reflexivity.
  - exact Hs.
  - exact Hc.
  - now apply nl_not_salt.
  - rewrite Hp in Hw. rewrite Hw. cbn [mbind option_bind]. f_equal.
    unfold after_pop. cbn [fst]. unfold after_get in Hout at 1.
    rewrite Hout. rewrite Hp, Ha. now rewrite decide_True by reflexivity.
Qed.

(** X14: for a test file in the order that [test] keeps, and a shell that
    runs its commands one after the other, the second loop of [test]
    returns the file with what each command did in the place of its
    expected output: the lines it printed, indented; its unfinished last
    line with a percent sign; its exit status in brackets when it is not
    zero. *)
Theorem test_output_replaces_expected
    (salt : string) (header : list string) (steps : list (step * ran)) :
  is_word salt = true ->
  forallb is_note header = true ->
  forallb is_step steps.*1 = true ->
  forallb (clean salt) steps.*2 = true ->
  reconstruct salt (r_after (read_file salt (file_of header steps.*1)))
    (transcript salt (length header) 0 "" steps)
  = Some (postout_of header steps).
Proof. intros Hsalt Hh Hs Hc. now apply reconstruct_steps. Qed.

Lemma test_output_replaces_expected_witness :
  reconstruct "CRAM0.0"
    (r_after (read_file "CRAM0.0" (file_of [ln "Two steps:"] ex_steps.*1)))
    (transcript "CRAM0.0" (length [ln "Two steps:"]) 0 "" ex_steps)
  = Some (postout_of [ln "Two steps:"] ex_steps)
  /\ transcript "CRAM0.0" 1 0 "" ex_steps
     = [ln ""; ln "CRAM0.0 1 0"; ln "a"; ln "b"; ln "CRAM0.0 5 0"; ln "";
        ln "CRAM0.0 8 3"]
  /\ postout_of [ln "Two steps:"] ex_steps
     = file_of [ln "Two steps:"] ex_steps.*1.
Proof.
  split; [|split].
  - apply test_output_replaces_expected; reflexivity.
  - vm_compute. reflexivity.
  - vm_compute. reflexivity.
Defined.

Section Passing.
Context `{ReEngine}.

Lemma agree_refl (l : list string) : Forall2 agree l l.
Proof. induction l; constructor; [now left | assumption]. Qed.

Lemma steps_agree (steps : list (step * ran)) :
  Forall (fun sr => Forall2 agree (s_expected sr.1) (output_lines sr.2)) steps ->
  Forall2 agree (steps.*1 ≫= step_lines) (steps ≫= actual_lines).
Proof.
  induction 1 as [|[s r] steps Hsr _ IH]; [constructor|].
  cbn [fmap list_fmap fst mbind list_bind]. apply Forall2_app; [|exact IH].
  unfold step_lines, actual_lines. constructor; [now left|].
  apply Forall2_app; [apply agree_refl|].
  unfold output_lines in Hsr. simpl in Hsr. rewrite !app_assoc.
  apply Forall2_app; [|apply agree_refl]. now rewrite <- app_assoc.
Qed.

End Passing.

(** X15: a test passes when its file is in the order that [test] keeps,
    the shell runs its commands one after the other, and for every command
    the expected lines agree, line for line, with what the command did:
    each is the same text as the actual line, or a tagged line that
    matches it.  [test] then returns the actual output and no diff. *)
Theorem test_passes_when_outputs_agree `{ReEngine}
    (sh : string -> list string) (salt abspath : string)
    (header : list string) (steps : list (step * ran)) :
  is_word salt = true ->
  forallb is_note header = true ->
  forallb is_step steps.*1 = true ->
  forallb (clean salt) steps.*2 = true ->
  sh (r_stdin (read_file salt (file_of header steps.*1)))
  = transcript salt (length header) 0 "" steps ->
  Forall (fun sr => Forall2 agree (s_expected sr.1) (output_lines sr.2))
    steps ->
  test sh salt abspath (file_of header steps.*1)
  = Some (file_of header steps.*1, postout_of header steps, []).
Proof.
  intros Hsalt Hh Hs Hc Hsh Hag.
  pose proof (reconstruct_steps salt header steps Hsalt Hh Hs Hc) as Hre.
  unfold test. rewrite Hsh, Hre. cbn [mbind option_bind].
  unfold unified_diff.
  rewrite (get_grouped_opcodes_agree (file_of header steps.*1)
             (postout_of header steps)).
  - reflexivity.
  - unfold file_of, postout_of. apply Forall2_app; [apply agree_refl|].
    now apply steps_agree.
Qed.

Lemma test_passes_when_outputs_agree_witness :
  test (H := reference_engine)
    (fun _ => transcript "CRAM0.0" 1 0 "" ex_steps) "CRAM0.0" "/w/two.t"
    (file_of [ln "Two steps:"] ex_steps.*1)
  = Some (file_of [ln "Two steps:"] ex_steps.*1,
          postout_of [ln "Two steps:"] ex_steps, []).
Proof.
  apply (test_passes_when_outputs_agree (H := reference_engine));
    try reflexivity.
  repeat (constructor; [repeat (constructor; [now left|])|]);
    repeat constructor.
Defined.
